(** * Voice-conversation engine: capture and playback worklets, signaling
      handshake, conversation manager and the React session hook.

    Shallow embedding of the TypeScript sources and the properties of the
    specification that they satisfy (or do not satisfy).

    Conventions.
    - Audio samples on the float side are [Float32Array] elements.  Every
      arithmetic step the worklets perform on them (comparison with 0 and
      +-1, multiplication by 32767 or 32768, division of a 16-bit integer by
      32768) is exact in IEEE double precision, so samples are modelled as
      rationals [Q] and the arithmetic as exact.
    - [Int16Array] elements are [Z] with the wrap-around of the typed-array
      store written out.
    - Callbacks, socket sends, port messages and timers are recorded as an
      effect trace. *)

From Stdlib Require Import ZArith QArith Qabs List String Ascii Bool Lia Lqa.
Import ListNotations.

Set Implicit Arguments.

(* ===================================================================== *)
(** ** PCM16 conversion (capture worklet encode, playback worklet decode) *)
(* ===================================================================== *)

Module Pcm.

Local Open Scope Q_scope.

(** [Math.min(a, b)] and [Math.max(a, b)] on finite numbers. *)
Definition math_min (a b : Q) : Q := if Qle_bool a b then a else b.
Definition math_max (a b : Q) : Q := if Qle_bool a b then b else a.

(** The comparison [a < b] on finite numbers. *)
Definition Qlt_bool (a b : Q) : bool := negb (Qle_bool b a).

(** Truncation of a number toward zero (the first step of [ToInt16]). *)
Definition trunc (x : Q) : Z := Z.quot (Qnum x) (Zpos (Qden x)).

(** Storing a number into an [Int16Array] slot: truncate toward zero,
    reduce modulo 2^16, reinterpret as a signed 16-bit value. *)
Definition to_int16 (x : Q) : Z :=
  let m := Z.modulo (trunc x) 65536 in
  if (32768 <=? m)%Z then (m - 65536)%Z else m.

(** The body of the loop of [RawAudioProcessor.processAndSendBuffer]:
<<
    const sample = Math.max(-1, Math.min(1, float32Data[i]));
    pcm16Data[i] = sample < 0 ? sample * 32768 : sample * 32767;
>> *)
Definition encode_sample (x : Q) : Z :=
  let sample := math_max (-1) (math_min 1 x) in
  to_int16 (if Qlt_bool sample 0 then sample * 32768 else sample * 32767).

(** [processAndSendBuffer] converts the whole accumulated buffer. *)
Definition encode_buffer (audioBuffer : list Q) : list Z :=
  map encode_sample audioBuffer.

(** The conversion in [AudioConcatProcessor.processAudioOutput]:
<<
    output[i] = this.currentAudioBuffer[this.currentPosition] / 32768;
>> *)
Definition decode_sample (v : Z) : Q := inject_Z v / 32768.

Definition quantization_step : Q := 1 / 32768.

(** Round-trip error of one sample. *)
Definition roundtrip_error (x : Q) : Q :=
  Qabs (decode_sample (encode_sample x) - x).

End Pcm.

(* ===================================================================== *)
(** ** Playback worklet ([AudioConcatProcessor])                          *)
(* ===================================================================== *)

Module Playback.

(** An output sample: a number, or [NaN] when the worklet divides
    [undefined] by 32768 (reading past the end of a chunk). *)
Inductive sample : Type :=
| Num (q : Q)
| NaN.

Record processor : Type := mkProcessor {
  audioBuffers : list (list Z);          (* queue of Int16Array chunks *)
  currentPosition : nat;
  currentAudioBuffer : option (list Z);  (* null or the chunk being played *)
  isInterrupted : bool;
  isFinished : bool
}.

(** State set up by the constructor. *)
Definition initial : processor :=
  {| audioBuffers := []; currentPosition := 0; currentAudioBuffer := None;
     isInterrupted := false; isFinished := false |}.

(** Messages the main thread posts to the worklet port. *)
Inductive message : Type :=
| MsgBuffer (buffer : list Z)   (* bytes of the ArrayBuffer *)
| MsgInterrupt
| MsgClearInterrupted.

(** Message the worklet posts back: [{ type: "process", finished }]. *)
Inductive notification : Type :=
| Process (finished : bool).

(** Reinterpretation of a 16-bit pattern as a signed value. *)
Definition signed16 (v : Z) : Z :=
  let m := Z.modulo v 65536 in
  if (32768 <=? m)%Z then (m - 65536)%Z else m.

(** [new Int16Array(buffer)]: a little-endian view of the bytes; a byte
    length that is not a multiple of two raises a [RangeError] ([None]). *)
Fixpoint int16_view (bytes : list Z) : option (list Z) :=
  match bytes with
  | [] => Some []
  | [_] => None
  | lo :: hi :: rest =>
      option_map (cons (signed16 (lo + 256 * hi))) (int16_view rest)
  end.

(** [handleNewBuffer]: the flag is cleared before the view is built, so it
    stays cleared when the constructor of the view throws. *)
Definition handleNewBuffer (buffer : list Z) (p : processor) : processor :=
  let p1 := {| audioBuffers := audioBuffers p;
               currentPosition := currentPosition p;
               currentAudioBuffer := currentAudioBuffer p;
               isInterrupted := false;
               isFinished := isFinished p |} in
  match int16_view buffer with
  | Some chunk =>
      {| audioBuffers := audioBuffers p1 ++ [chunk];
         currentPosition := currentPosition p1;
         currentAudioBuffer := currentAudioBuffer p1;
         isInterrupted := isInterrupted p1;
         isFinished := isFinished p1 |}
  | None => p1
  end.

Definition handleInterruption (p : processor) : processor :=
  {| audioBuffers := audioBuffers p;
     currentPosition := currentPosition p;
     currentAudioBuffer := currentAudioBuffer p;
     isInterrupted := true;
     isFinished := isFinished p |}.

Definition handleClearInterruption (p : processor) : processor :=
  if isInterrupted p then
    {| audioBuffers := [];
       currentPosition := currentPosition p;
       currentAudioBuffer := None;
       isInterrupted := false;
       isFinished := isFinished p |}
  else p.

(** [port.onmessage]. *)
Definition onmessage (m : message) (p : processor) : processor :=
  match m with
  | MsgBuffer buffer => handleNewBuffer buffer p
  | MsgInterrupt => handleInterruption p
  | MsgClearInterrupted => handleClearInterruption p
  end.

(** The head of one loop iteration of [processAudioOutput]: make sure a
    chunk is loaded; [None] is the [break] taken on an empty queue. *)
Definition load_chunk (p : processor) : option (processor * list Z) :=
  match currentAudioBuffer p with
  | Some chunk => Some (p, chunk)
  | None =>
      match audioBuffers p with
      | [] => None
      | chunk :: rest =>
          Some ({| audioBuffers := rest;
                   currentPosition := 0;
                   currentAudioBuffer := Some chunk;
                   isInterrupted := isInterrupted p;
                   isFinished := isFinished p |}, chunk)
      end
  end.

(** The rest of the iteration: convert one sample and advance. *)
Definition emit_sample (p : processor) (chunk : list Z) : processor * sample :=
  let out := match nth_error chunk (currentPosition p) with
             | Some v => Num (Pcm.decode_sample v)
             | None => NaN
             end in
  let pos := S (currentPosition p) in
  ({| audioBuffers := audioBuffers p;
      currentPosition := pos;
      currentAudioBuffer :=
        if (List.length chunk <=? pos)%nat then None else currentAudioBuffer p;
      isInterrupted := isInterrupted p;
      isFinished := isFinished p |}, out).

(** [processAudioOutput(output)], by recursion on the iterations left
    ([output.length] at the call).  Returns the new state, the samples
    written to the head of [output], and the local [isFinished]. *)
Fixpoint processAudioOutput (n : nat) (p : processor)
  : processor * list sample * bool :=
  match n with
  | O => (p, [], false)
  | S n' =>
      match load_chunk p with
      | None => (p, [], true)
      | Some (p1, chunk) =>
          let '(p2, x) := emit_sample p1 chunk in
          let '(p3, xs, fin) := processAudioOutput n' p2 in
          (p3, x :: xs, fin)
      end
  end.

(** [process(_, outputs)] with [outputs[0][0].length = n]. *)
Definition process (n : nat) (p : processor)
  : processor * list sample * option notification :=
  let '(p1, written, fin) := processAudioOutput n p in
  if Bool.eqb (isFinished p1) fin then (p1, written, None)
  else ({| audioBuffers := audioBuffers p1;
           currentPosition := currentPosition p1;
           currentAudioBuffer := currentAudioBuffer p1;
           isInterrupted := isInterrupted p1;
           isFinished := fin |}, written, Some (Process fin)).

(** A run of hardware pulls, each asking for [n] samples. *)
Fixpoint pulls (ns : list nat) (p : processor) : processor :=
  match ns with
  | [] => p
  | n :: rest => pulls rest (fst (fst (process n p)))
  end.

(** Delivery of a list of port messages, in order. *)
Definition deliver (ms : list message) (p : processor) : processor :=
  fold_left (fun acc m => onmessage m acc) ms p.

(** A processor in the middle of a chunk with two more chunks queued. *)
Definition playing_example : processor :=
  {| audioBuffers := [[7; 8]; [9]]%Z; currentPosition := 1;
     currentAudioBuffer := Some [1; 2; 3]%Z;
     isInterrupted := false; isFinished := false |}.

End Playback.

(* ===================================================================== *)
(** ** Signaling channel handshake ([WebSocketHandler])                   *)
(* ===================================================================== *)

Module Signaling.

Local Open Scope string_scope.

(** [conversation_initiation_metadata_event]. *)
Record metadata : Type := mkMetadata {
  conversation_id : string;
  agent_output_audio_format : string
}.

(** What [JSON.parse(event.data)] gives for an inbound frame, as far as
    [waitForMetadata] looks at it. *)
Inductive frame : Type :=
| Unparseable                                   (* JSON.parse throws *)
| Parsed (type : option string)                 (* data.type, when present *)
         (conversation_initiation_metadata_event : option metadata).

(** Events of the socket while the handshake is awaited. *)
Inductive socket_event : Type :=
| SockError
| SockClose
| SockMessage (f : frame).

(** Why the awaited promise rejected. *)
Inductive reason : Type :=
| ErrorEvent      (* the socket's error event *)
| CloseEvent      (* the socket's close event *)
| TypeError.      (* reading a field of an undefined metadata object *)

Inductive promise (A : Type) : Type :=
| Pending
| Fulfilled (a : A)
| Rejected (r : reason).
Arguments Pending {A}.
Arguments Fulfilled {A} a.
Arguments Rejected {A} r.

(** [resolve] and [reject] settle a promise once; later calls do nothing. *)
Definition resolve {A} (a : A) (p : promise A) : promise A :=
  match p with Pending => Fulfilled a | _ => p end.
Definition reject {A} (r : reason) (p : promise A) : promise A :=
  match p with Pending => Rejected r | _ => p end.

(** [isEventType(obj)] is [!!obj.type]: the empty string is falsy. *)
Definition isEventType (f : frame) : bool :=
  match f with
  | Parsed (Some t) _ => negb (String.eqb t EmptyString)
  | _ => false
  end.

(** State of [waitForMetadata]: the promise it returned and whether the
    message listener (registered with [once: true]) is still attached. *)
Record waiting : Type := mkWaiting {
  settled : promise (option metadata);
  messageListener : bool
}.

Definition waitForMetadata : waiting :=
  {| settled := Pending; messageListener := true |}.

(** The body of the message listener. *)
Definition on_first_message (f : frame) (p : promise (option metadata))
  : promise (option metadata) :=
  match f with
  | Unparseable => p                (* the listener throws; nobody rejects *)
  | Parsed type ev =>
      if isEventType f then
        match type with
        | Some t =>
            if String.eqb t "conversation_initiation_metadata"
            then resolve ev p
            else p                  (* console.warn only *)
        | None => p
        end
      else p
  end.

(** One socket event delivered to the three listeners. *)
Definition deliver (e : socket_event) (w : waiting) : waiting :=
  match e with
  | SockError =>
      {| settled := reject ErrorEvent (settled w);
         messageListener := messageListener w |}
  | SockClose =>
      {| settled := reject CloseEvent (settled w);
         messageListener := messageListener w |}
  | SockMessage f =>
      if messageListener w then
        {| settled := on_first_message f (settled w);
           messageListener := false |}
      else w
  end.

Definition deliver_all (es : list socket_event) (w : waiting) : waiting :=
  fold_left (fun acc e => deliver e acc) es w.

Section Create.

(** [parseInt(format.replace("pcm_", ...))] of the platform, [None] for
    [NaN]. *)
Variable parse_rate : string -> option Z.

Record WebSocketHandler : Type := mkHandler {
  conversationId : string;
  sampleRate : option Z
}.

(** Where [WebSocketHandler.create] stands after the socket has delivered
    the events [es]: still awaiting, returned a handler, or thrown (after
    closing the socket in its [catch]). *)
Inductive attempt : Type :=
| Awaiting
| Created (h : WebSocketHandler)
| Failed (r : reason).

Definition create (es : list socket_event) : attempt :=
  match settled (deliver_all es waitForMetadata) with
  | Pending => Awaiting
  | Fulfilled (Some m) =>
      Created {| conversationId := conversation_id m;
                 sampleRate := parse_rate (agent_output_audio_format m) |}
  | Fulfilled None => Failed TypeError
  | Rejected r => Failed r
  end.

End Create.

(** A frame that is a well-formed handshake event. *)
Definition is_metadata (f : frame) : bool :=
  match f with
  | Parsed (Some t) _ => String.eqb t "conversation_initiation_metadata"
  | _ => false
  end.

(** The first error or close among the events, if any. *)
Fixpoint first_failure (es : list socket_event) : option reason :=
  match es with
  | [] => None
  | SockError :: _ => Some ErrorEvent
  | SockClose :: _ => Some CloseEvent
  | SockMessage _ :: rest => first_failure rest
  end.

(** Example frames: a heartbeat and a well-formed handshake. *)
Definition ping_frame : frame := Parsed (Some "ping") None.
Definition metadata_frame : frame :=
  Parsed (Some "conversation_initiation_metadata")
         (Some {| conversation_id := "abc";
                  agent_output_audio_format := "pcm_24000" |}).
Definition example_parse_rate (format : string) : option Z := Some 24000%Z.

End Signaling.

(* ===================================================================== *)
(** ** Conversation manager ([ConversationManager])                       *)
(* ===================================================================== *)

Module Manager.

Local Open Scope string_scope.
Local Open Scope list_scope.

Inductive mode : Type := Listening | Speaking | Interrupted.
Inductive status : Type := Connecting | Connected | Disconnecting | Disconnected.

Definition mode_eqb (a b : mode) : bool :=
  match a, b with
  | Listening, Listening | Speaking, Speaking | Interrupted, Interrupted => true
  | _, _ => false
  end.

Definition status_eqb (a b : status) : bool :=
  match a, b with
  | Connecting, Connecting | Connected, Connected
  | Disconnecting, Disconnecting | Disconnected, Disconnected => true
  | _, _ => false
  end.

(** The three resources a session owns. *)
Inductive resource : Type := Microphone | WebSocket | OutputDevice.

(** Frames the manager writes to the socket. *)
Inductive outbound : Type :=
| UserAudioChunk (user_audio_chunk : string)   (* base64 PCM16 *)
| Pong (event_id : Z).

(** Payloads of the debug callback. *)
Inductive debug : Type :=
| TentativeAgentResponse (response : string)
| UnknownEvent (type : string).

(** Everything the manager does to the outside: handler calls, socket
    writes, messages to the playback worklet, gain automation, timers,
    and opening and closing of resources. *)
Inductive effect : Type :=
| OnConnect (conversationId : string)
| OnDisconnect
| OnError (message : string)
| OnDebug (d : debug)
| OnMessage (source message : string)
| OnStatusChange (s : status)
| OnModeChange (m : mode)
| OnAudioData (audioData : list Z)
| SocketSend (f : outbound)
| PostToOutput (m : Playback.message)
| ExponentialRamp (target seconds : Q)   (* ...ToValueAtTime(target, currentTime + seconds) *)
| SetTimeout (ms : Z)
| Open (r : resource)
| Close (r : resource).

(** What [JSON.parse(event.data)] gives for a steady-state frame.  The
    event ids are integers, as the wire protocol has them.  For an
    interruption both the event object and, inside it, the event id are
    optional.  A frame of another known type without its event object
    makes its handler read a field of undefined, which throws inside the
    same [try] before anything else has happened: such a frame behaves
    as an unparseable one. *)
Inductive ws_data : Type :=
| Unparseable                                   (* the [try] body throws *)
| NoType                                        (* no truthy [type] field *)
| Interruption (interruption_event : option (option Z))
    (* the event object, when present, and in it the event_id, when
       present *)
| AgentResponse (agent_response : string)
| UserTranscript (user_transcript : string)
| TentativeResponse (tentative_agent_response : string)
| Audio (event_id : Z) (audio_base_64 : string)
| Ping (event_id : Z)
| Other (type : string).

(** The callbacks that drive a manager: socket listeners, worklet ports,
    the fade timer, the public API.  [endSession] is an async function
    with two awaits, so it runs in three pieces. *)
Inductive input : Type :=
| WsMessage (d : ws_data)
| WsError
| WsClose
| InputAudio (pcm16Data : list Z)     (* message of the capture worklet *)
| OutputProcess (finished : bool)     (* message of the playback worklet *)
| FadeTimeout                         (* callback of fadeOutAudio's timer *)
| SetVolume (volume : Q)
| EndSession                          (* up to the first await *)
| EndSessionInputClosed               (* after [await audioInput.close()] *)
| EndSessionOutputClosed.             (* after [await audioOutput.close()] *)

(** Which handlers an object supplies, as far as it can matter:
    [DEFAULT_HANDLERS] supplies every handler the manager calls except
    [onAudioData], so only that one can be missing from the settings. *)
Record ConversationConfig : Type := mkConfig {
  has_onAudioData : bool
}.

Definition DEFAULT_HANDLERS : ConversationConfig :=
  {| has_onAudioData := false |}.

(** [mergeObjects(DEFAULT_HANDLERS, config || {})]. *)
Definition merged_settings (config : ConversationConfig)
  : ConversationConfig :=
  {| has_onAudioData :=
       has_onAudioData DEFAULT_HANDLERS || has_onAudioData config |}.

Record manager : Type := mkManager {
  settings : ConversationConfig;
  conversationId : string;     (* this.connection.conversationId *)
  lastInterruptTime : option Z;   (* a number, or [None] for undefined *)
  conversationMode : mode;
  connectionStatus : status;
  audioVolume : Q;
  gainValue : Q    (* the value last assigned to
                      this.audioOutput.gainNode.gain.value; scheduled
                      automation is recorded in the effect trace *)
}.

(** *** Field updates *)

Definition set_lastInterruptTime (v : option Z) (m : manager) : manager :=
  {| settings := settings m;
     conversationId := conversationId m; lastInterruptTime := v;
     conversationMode := conversationMode m;
     connectionStatus := connectionStatus m;
     audioVolume := audioVolume m; gainValue := gainValue m |}.

Definition set_conversationMode (v : mode) (m : manager) : manager :=
  {| settings := settings m;
     conversationId := conversationId m;
     lastInterruptTime := lastInterruptTime m;
     conversationMode := v;
     connectionStatus := connectionStatus m;
     audioVolume := audioVolume m; gainValue := gainValue m |}.

Definition set_connectionStatus (v : status) (m : manager) : manager :=
  {| settings := settings m;
     conversationId := conversationId m;
     lastInterruptTime := lastInterruptTime m;
     conversationMode := conversationMode m;
     connectionStatus := v;
     audioVolume := audioVolume m; gainValue := gainValue m |}.

Definition set_audioVolume (v : Q) (m : manager) : manager :=
  {| settings := settings m;
     conversationId := conversationId m;
     lastInterruptTime := lastInterruptTime m;
     conversationMode := conversationMode m;
     connectionStatus := connectionStatus m;
     audioVolume := v; gainValue := gainValue m |}.

Definition set_gainValue (v : Q) (m : manager) : manager :=
  {| settings := settings m;
     conversationId := conversationId m;
     lastInterruptTime := lastInterruptTime m;
     conversationMode := conversationMode m;
     connectionStatus := connectionStatus m;
     audioVolume := audioVolume m; gainValue := v |}.

(** *** Methods as state transformers with an effect trace *)

Definition action : Type := manager -> manager * list effect.

Definition skip : action := fun m => (m, []).
Definition emit (e : effect) : action := fun m => (m, [e]).
Definition modify (f : manager -> manager) : action := fun m => (f m, []).
Definition seq (a b : action) : action :=
  fun m => let '(m1, e1) := a m in
           let '(m2, e2) := b m1 in (m2, e1 ++ e2).

Declare Scope action_scope.
Delimit Scope action_scope with action.
Bind Scope action_scope with action.
Infix ";;" := seq (at level 61, right associativity) : action_scope.
Local Open Scope action_scope.

(** *** Byte and base64 helpers *)

Definition bytes_of_string (s : string) : list Z :=
  map (fun c => Z.of_nat (nat_of_ascii c)) (list_ascii_of_string s).

Definition string_of_bytes (bs : list Z) : string :=
  string_of_list_ascii (map (fun b => ascii_of_nat (Z.to_nat b)) bs).

(** The bytes behind an [Int16Array] (little-endian, two's complement). *)
Definition buffer_of_int16 (vs : list Z) : list Z :=
  flat_map (fun v => [Z.modulo v 256; Z.modulo (Z.div v 256) 256]) vs.

Section Dispatch.

(** [window.atob] and [window.btoa] of the platform; [atob] throws on a
    string that is not base64 ([None]). *)
Variable atob : string -> option string.
Variable btoa : string -> string.

(** [arrayBufferToBase64], for a buffer the engine can spread into one
    call of [String.fromCharCode], as the chunks of the capture worklet
    are. *)
Definition arrayBufferToBase64 (buffer : list Z) : string :=
  btoa (string_of_bytes buffer).

(** [base64ToArrayBuffer]; [None] when [atob] throws. *)
Definition base64ToArrayBuffer (base64String : string) : option (list Z) :=
  option_map bytes_of_string (atob base64String).

(** [a <= b] where [a] may be undefined: the comparison with undefined is
    false. *)
Definition js_le (a : option Z) (b : Z) : bool :=
  match a with
  | Some x => (x <=? b)%Z
  | None => false
  end.

Definition updateConversationMode (newMode : mode) : action :=
  fun m =>
    if mode_eqb newMode (conversationMode m) then skip m
    else (modify (set_conversationMode newMode) ;;
          emit (OnModeChange newMode)) m.

Definition updateConnectionStatus (newStatus : status) : action :=
  fun m =>
    if status_eqb newStatus (connectionStatus m) then skip m
    else (modify (set_connectionStatus newStatus) ;;
          emit (OnStatusChange newStatus)) m.

Definition handleError (message : string) : action :=
  emit (OnError message).

Definition fadeOutAudio : action :=
  updateConversationMode Listening ;;
  emit (PostToOutput Playback.MsgInterrupt) ;;
  emit (ExponentialRamp (1 # 10000) 2) ;;
  emit (SetTimeout 2000).

(** The function [fadeOutAudio] hands to [setTimeout]. *)
Definition fadeTimeout : action :=
  (fun m => modify (set_gainValue (audioVolume m)) m) ;;
  emit (PostToOutput Playback.MsgClearInterrupted).

Definition handleInterruption (interruption_event : option (option Z))
  : action :=
  match interruption_event with
  | Some event_id => modify (set_lastInterruptTime event_id)
  | None => skip
  end ;;
  fadeOutAudio.

Definition handleAgentResponse (agent_response : string) : action :=
  emit (OnMessage "ai" agent_response).

Definition handleUserTranscript (user_transcript : string) : action :=
  emit (OnMessage "user" user_transcript).

Definition handleTentativeResponse (response : string) : action :=
  emit (OnDebug (TentativeAgentResponse response)).

(** [processIncomingAudio] is an async function that nobody awaits: what
    it throws rejects the promise it returned and reaches no caller.  It
    throws at its first line when [atob] rejects the payload, and at its
    second when the settings have no [onAudioData]; the statements after
    the throw do not run. *)
Definition processIncomingAudio (base64Audio : string) : action :=
  fun m =>
    match base64ToArrayBuffer base64Audio with
    | None => skip m
    | Some audioBuffer =>
        if has_onAudioData (settings m) then
          (emit (OnAudioData audioBuffer) ;;
           (fun m' => modify (set_gainValue (audioVolume m')) m') ;;
           emit (PostToOutput Playback.MsgClearInterrupted) ;;
           emit (PostToOutput (Playback.MsgBuffer audioBuffer))) m
        else skip m
    end.

Definition handleIncomingAudio (event_id : Z) (audio_base_64 : string)
  : action :=
  fun m =>
    if js_le (lastInterruptTime m) event_id then
      (processIncomingAudio audio_base_64 ;;
       updateConversationMode Speaking) m
    else skip m.

Definition handlePing (event_id : Z) : action :=
  emit (SocketSend (Pong event_id)).

Definition handleWebSocketMessage (d : ws_data) : action :=
  match d with
  | Unparseable => handleError "Failed to parse WebSocket message"
  | NoType => skip
  | Interruption ev =>
      updateConversationMode Interrupted ;; handleInterruption ev
  | AgentResponse r => handleAgentResponse r
  | UserTranscript t => handleUserTranscript t
  | TentativeResponse r => handleTentativeResponse r
  | Audio event_id audio => handleIncomingAudio event_id audio
  | Ping event_id => handlePing event_id
  | Other t => emit (OnDebug (UnknownEvent t))
  end.

Definition handleInputAudioMessage (pcm16Data : list Z) : action :=
  fun m =>
    if status_eqb (connectionStatus m) Connected then
      emit (SocketSend (UserAudioChunk
              (arrayBufferToBase64 (buffer_of_int16 pcm16Data)))) m
    else skip m.

Definition handleOutputAudioMessage (finished : bool) : action :=
  updateConversationMode (if finished then Listening else Speaking).

Definition handleWebSocketError : action :=
  updateConnectionStatus Disconnected ;; handleError "WebSocket error".

Definition handleWebSocketClose : action :=
  updateConnectionStatus Disconnected ;; emit OnDisconnect.

Definition setVolume (volume : Q) : action :=
  modify (set_audioVolume volume).

(** [endSession], cut at its awaits. *)
Definition endSession : action :=
  fun m =>
    if status_eqb (connectionStatus m) Connected then
      (updateConnectionStatus Disconnecting ;;
       emit (Close WebSocket) ;;
       emit (Close Microphone)) m
    else skip m.
Definition endSession_inputClosed : action := emit (Close OutputDevice).
Definition endSession_outputClosed : action :=
  updateConnectionStatus Disconnected.

(** The single-threaded dispatcher: one callback at a time. *)
Definition step (i : input) : action :=
  match i with
  | WsMessage d => handleWebSocketMessage d
  | WsError => handleWebSocketError
  | WsClose => handleWebSocketClose
  | InputAudio pcm => handleInputAudioMessage pcm
  | OutputProcess finished => handleOutputAudioMessage finished
  | FadeTimeout => fadeTimeout
  | SetVolume v => setVolume v
  | EndSession => endSession
  | EndSessionInputClosed => endSession_inputClosed
  | EndSessionOutputClosed => endSession_outputClosed
  end.

Fixpoint run (inputs : list input) : action :=
  match inputs with
  | [] => skip
  | i :: rest => step i ;; run rest
  end.


End Dispatch.

(** What an input stores into [lastInterruptTime], if it stores
    anything: the [event_id] field of an interruption event object, a
    number or undefined. *)
Definition interrupt_id (i : input) : option (option Z) :=
  match i with
  | WsMessage (Interruption (Some event_id)) => Some event_id
  | _ => None
  end.

(** Every interruption event object of [inputs] carries an id, and these
    ids never go below the value in force ([current] at the start). *)
Fixpoint interrupt_ids_ascend (current : Z) (inputs : list input) : Prop :=
  match inputs with
  | [] => True
  | i :: rest =>
      match interrupt_id i with
      | Some (Some k) => (current <= k)%Z /\ interrupt_ids_ascend k rest
      | Some None => False
      | None => interrupt_ids_ascend current rest
      end
  end.

(** *** Construction and start-up *)

(** The fields as the constructor initialises them; a freshly created
    gain node has gain 1. *)
Definition fresh (settings : ConversationConfig) (conversationId : string)
  : manager :=
  {| settings := settings;
     conversationId := conversationId;
     lastInterruptTime := Some 0%Z;
     conversationMode := Listening;
     connectionStatus := Connecting;
     audioVolume := 1;
     gainValue := 1 |}.

(** The constructor: [initializeEventListeners] announces the connection,
    then the status becomes connected. *)
Definition constructor (settings : ConversationConfig)
    (conversationId : string) : manager * list effect :=
  (emit (OnConnect conversationId) ;;
   updateConnectionStatus Connected) (fresh settings conversationId).

Section StartSession.

(** Values thrown by the three [create] functions. *)
Variable error : Type.

Inductive result (A : Type) : Type :=
| Ok (a : A)
| Throw (e : error).
Arguments Ok {A} a.
Arguments Throw {A} e.

(** Handles of the two audio pipelines. *)
Inductive AudioInputHandler : Type := TheAudioInput.
Inductive AudioOutputHandler : Type := TheAudioOutput.

(** How the three [create] calls of one attempt turn out.  Each [create]
    releases what it had opened itself before it throws. *)
Record creation : Type := mkCreation {
  AudioInputHandler_create : result AudioInputHandler;
  WebSocketHandler_create : result Signaling.WebSocketHandler;
  AudioOutputHandler_create : option Z -> result AudioOutputHandler
}.

(** [handle?.close()]: nothing happens on [null]. *)
Definition close_opt {A : Type} (handle : option A) (r : resource)
  : list effect :=
  match handle with
  | Some _ => [Close r]
  | None => []
  end.

(** The [catch] block of [startSession]. *)
Definition catch_block (audioInput : option AudioInputHandler)
    (wsConnection : option Signaling.WebSocketHandler)
    (audioOutput : option AudioOutputHandler) : list effect :=
  [OnStatusChange Disconnected]
  ++ close_opt wsConnection WebSocket
  ++ close_opt audioInput Microphone
  ++ close_opt audioOutput OutputDevice.

Definition startSession (config : ConversationConfig) (c : creation)
  : list effect * result manager :=
  let settings := merged_settings config in
  let connecting := [OnStatusChange Connecting] in
  match AudioInputHandler_create c with
  | Throw e => (connecting ++ catch_block None None None, Throw e)
  | Ok audioInput =>
      match WebSocketHandler_create c with
      | Throw e =>
          (connecting ++ [Open Microphone]
           ++ catch_block (Some audioInput) None None, Throw e)
      | Ok wsConnection =>
          match AudioOutputHandler_create c
                  (Signaling.sampleRate wsConnection) with
          | Throw e =>
              (connecting ++ [Open Microphone; Open WebSocket]
               ++ catch_block (Some audioInput) (Some wsConnection) None,
               Throw e)
          | Ok audioOutput =>
              let '(m, es) :=
                constructor settings
                  (Signaling.conversationId wsConnection) in
              (connecting
               ++ [Open Microphone; Open WebSocket; Open OutputDevice]
               ++ es, Ok m)
          end
      end
  end.

(** The value thrown by the first of the three [create] calls that
    throws, if one does. *)
Definition first_throw (c : creation) : option error :=
  match AudioInputHandler_create c with
  | Throw e => Some e
  | Ok _ =>
      match WebSocketHandler_create c with
      | Throw e => Some e
      | Ok wsConnection =>
          match AudioOutputHandler_create c
                  (Signaling.sampleRate wsConnection) with
          | Throw e => Some e
          | Ok _ => None
          end
      end
  end.

End StartSession.

Arguments Ok {error A} a.
Arguments Throw {error A} e.

(** *** Observations on effect traces *)

Definition opened (es : list effect) : list resource :=
  flat_map (fun e => match e with Open r => [r] | _ => [] end) es.

Definition closed (es : list effect) : list resource :=
  flat_map (fun e => match e with Close r => [r] | _ => [] end) es.

Definition statuses (es : list effect) : list status :=
  flat_map (fun e => match e with OnStatusChange s => [s] | _ => [] end) es.

Definition mode_changes (es : list effect) : list mode :=
  flat_map (fun e => match e with OnModeChange m => [m] | _ => [] end) es.

Definition sent_chunks (es : list effect) : list string :=
  flat_map (fun e => match e with
                     | SocketSend (UserAudioChunk c) => [c]
                     | _ => []
                     end) es.

Definition posted (es : list effect) : list Playback.message :=
  flat_map (fun e => match e with PostToOutput m => [m] | _ => [] end) es.

(** *** Example data *)

(** Stand-ins for the platform's base64 functions in examples. *)
Definition example_atob (s : string) : option string := Some s.
Definition example_btoa (s : string) : string := s.

(** A config that supplies [onAudioData], and one that does not. *)
Definition example_config : ConversationConfig :=
  {| has_onAudioData := true |}.
Definition bare_config : ConversationConfig :=
  {| has_onAudioData := false |}.

(** A manager as the constructor leaves it. *)
Definition example_manager : manager :=
  fst (constructor (merged_settings example_config) "abc").

(** An interruption with id 5, then the fade timer and a heartbeat. *)
Definition example_inputs : list input :=
  [WsMessage (Interruption (Some (Some 5%Z))); FadeTimeout;
   WsMessage (Ping 1%Z)].
Definition example_interrupted : manager :=
  fst (run example_atob example_btoa example_inputs example_manager).

(** A manager that has just accepted an audio event. *)
Definition example_speaking : manager :=
  fst (step example_atob example_btoa
         (WsMessage (Audio 1%Z "AAAA")) example_manager).

(** Interruptions with ids 3 and then 5. *)
Definition example_twice_interrupted : manager :=
  fst (run example_atob example_btoa
         [WsMessage (Interruption (Some (Some 3%Z)));
          WsMessage (Interruption (Some (Some 5%Z)))] example_manager).

(** Three [create] calls of which the last one throws. *)
Definition example_creation : creation string :=
  {| AudioInputHandler_create := Ok TheAudioInput;
     WebSocketHandler_create :=
       Ok {| Signaling.conversationId := "abc";
             Signaling.sampleRate := Some 24000%Z |};
     AudioOutputHandler_create := fun _ => Throw "NotSupportedError" |}.

End Manager.

(* ===================================================================== *)
(** ** The React hook ([useConversation]), both versions in the sources   *)
(* ===================================================================== *)

Module Hook.

Local Open Scope list_scope.

(** The two versions of the hook: the typed one, whose [startSession]
    returns the conversation object on two of its paths and [getId()] of
    it on the third, and the untyped one, which returns [getId()] on all
    three. *)
Inductive version : Type := Typed | Untyped.

(** The config each version hands to [Conversation.startSession].  The
    typed hook merges its own [onAudioData] wrapper in.  The untyped
    hook's [mergeObjects] returns [Object.assign.bind()], a function
    without enumerable properties, so nothing of it reaches the
    settings. *)
Definition mergedConfig (v : version) : Manager.ConversationConfig :=
  match v with
  | Typed => {| Manager.has_onAudioData := true |}
  | Untyped => {| Manager.has_onAudioData := false |}
  end.

(** Identity of a [startSession] call of the hook; of a promise returned
    by [Conversation.startSession] (the n-th invocation returns promise
    n); and of the conversation object such a promise resolves to (the
    object created by invocation n is session n). *)
Definition call : Type := nat.
Definition promise_id : Type := nat.
Definition session : Type := nat.

Section Model.

Variable error : Type.

(** How a call of the hook's [startSession] ends. *)
Inductive outcome : Type :=
| Returned (s : session)   (* resolved with the conversation object *)
| Rejected (e : error)     (* rejected with what the start threw *)
| RejectedNotAFunction.    (* rejected with the TypeError of calling a
                              method the conversation object lacks *)

(** [conversation.getId()] inside the async call: the conversation
    manager has [getConversationId] and no [getId], so the expression
    throws a TypeError and the call rejects. *)
Definition getId_call (s : session) : outcome := RejectedNotAFunction.

(** A call suspended at an [await] of the in-flight promise. *)
Inductive continuation : Type :=
| AwaitOwn (c : call)       (* the call that invoked Conversation.startSession *)
| AwaitPending (c : call).  (* a call that found pendingConversationRef set *)

Record hook : Type := mkHook {
  conversationRef : option session;
  pendingConversationRef : option promise_id;
  suspended : list (promise_id * continuation);  (* in order of suspension *)
  invoked : list (Manager.creation error);
    (* the invocations of Conversation.startSession, oldest first, each
       with the way its three [create] calls turn out *)
  finished : list (call * outcome)
}.

Definition initial : hook :=
  {| conversationRef := None; pendingConversationRef := None;
     suspended := []; invoked := []; finished := [] |}.

(** The hook's [startSession] is called (in a world where a session
    started now meets [env]); an in-flight promise settles. *)
Inductive event : Type :=
| StartSession (c : call) (env : Manager.creation error)
| Settle (p : promise_id).

Definition finish (c : call) (o : outcome) (h : hook) : hook :=
  {| conversationRef := conversationRef h;
     pendingConversationRef := pendingConversationRef h;
     suspended := suspended h;
     invoked := invoked h;
     finished := finished h ++ [(c, o)] |}.

Definition suspend (p : promise_id) (k : continuation) (h : hook) : hook :=
  {| conversationRef := conversationRef h;
     pendingConversationRef := pendingConversationRef h;
     suspended := suspended h ++ [(p, k)];
     invoked := invoked h;
     finished := finished h |}.

(** A call runs synchronously up to its first [await] or [return]. *)
Definition call_startSession (c : call) (env : Manager.creation error)
    (h : hook) : hook :=
  match conversationRef h with
  | Some s => finish c (getId_call s) h
  | None =>
      match pendingConversationRef h with
      | Some p => suspend p (AwaitPending c) h
      | None =>
          let p := List.length (invoked h) in
          suspend p (AwaitOwn c)
            {| conversationRef := conversationRef h;
               pendingConversationRef := Some p;
               suspended := suspended h;
               invoked := invoked h ++ [env];
               finished := finished h |}
      end
  end.

(** How the two resumed paths end: [return conversation] in the typed
    hook, [return conversation.getId()] in the untyped one. *)
Definition resumed_outcome (v : version) (s : session) : outcome :=
  match v with
  | Typed => Returned s
  | Untyped => getId_call s
  end.

(** A suspended call resumes when the promise it awaits settles. *)
Definition resume (v : version) (r : Manager.result error session)
    (k : continuation) (h : hook) : hook :=
  match k, r with
  | AwaitOwn c, Manager.Ok s =>
      finish c (resumed_outcome v s)
        {| conversationRef := Some s;
           pendingConversationRef := None;      (* finally *)
           suspended := suspended h;
           invoked := invoked h;
           finished := finished h |}
  | AwaitOwn c, Manager.Throw e =>
      finish c (Rejected e)
        {| conversationRef := conversationRef h;
           pendingConversationRef := None;      (* finally *)
           suspended := suspended h;
           invoked := invoked h;
           finished := finished h |}
  | AwaitPending c, Manager.Ok s =>
      finish c (resumed_outcome v s) h
  | AwaitPending c, Manager.Throw e =>
      finish c (Rejected e) h
  end.

(** How promise [p] settles: with session [p], or with what
    [ConversationManager.startSession] threw. *)
Definition settlement (v : version) (p : promise_id)
    (env : Manager.creation error) : Manager.result error session :=
  match snd (Manager.startSession (mergedConfig v) env) with
  | Manager.Ok _ => Manager.Ok p
  | Manager.Throw e => Manager.Throw e
  end.

(** Settling a promise resumes its waiters in the order they suspended. *)
Definition settle (v : version) (p : promise_id) (h : hook) : hook :=
  match nth_error (invoked h) p with
  | None => h
  | Some env =>
      let waiting :=
        filter (fun pk => Nat.eqb (fst pk) p) (suspended h) in
      let others :=
        filter (fun pk => negb (Nat.eqb (fst pk) p)) (suspended h) in
      fold_left (fun acc pk => resume v (settlement v p env) (snd pk) acc)
        waiting
        {| conversationRef := conversationRef h;
           pendingConversationRef := pendingConversationRef h;
           suspended := others;
           invoked := invoked h;
           finished := finished h |}
  end.

Definition step (v : version) (e : event) (h : hook) : hook :=
  match e with
  | StartSession c env => call_startSession c env h
  | Settle p => settle v p h
  end.

Definition run (v : version) (es : list event) (h : hook) : hook :=
  fold_left (fun acc e => step v e acc) es h.

(** The outcome of call [c], once it has one. *)
Definition outcome_of (c : call) (h : hook) : option outcome :=
  option_map snd (find (fun co => Nat.eqb (fst co) c) (finished h)).

(** Everything the sessions started through the hook did while starting. *)
Definition effects (v : version) (h : hook) : list Manager.effect :=
  flat_map (fun env => fst (Manager.startSession (mergedConfig v) env))
    (invoked h).

End Model.

Arguments Returned {error} s.
Arguments RejectedNotAFunction {error}.
Arguments Settle {error} p.
Arguments initial {error}.

(** *** Example data *)

(** Three [create] calls that all succeed. *)
Definition working : Manager.creation string :=
  {| Manager.AudioInputHandler_create := Manager.Ok Manager.TheAudioInput;
     Manager.WebSocketHandler_create :=
       Manager.Ok {| Signaling.conversationId := "abc";
                     Signaling.sampleRate := Some 24000%Z |};
     Manager.AudioOutputHandler_create :=
       fun _ => Manager.Ok Manager.TheAudioOutput |}.

(** Two calls, the second made while the first is pending. *)
Definition second_while_pending : list (event string) :=
  [StartSession 1%nat working; StartSession 2%nat working; Settle 0%nat].

(** Two calls, the second made once the first has its session. *)
Definition second_while_active : list (event string) :=
  [StartSession 1%nat working; Settle 0%nat; StartSession 2%nat working].

End Hook.

(* ===================================================================== *)
(** ** The base64 helpers with the limits of the platform                 *)
(* ===================================================================== *)

Module Codec.

Section Limits.

Variable atob : string -> option string.
Variable btoa : string -> string.

(** Whether the engine takes a call with that many arguments; spreading
    a longer array into a call throws a [RangeError]. *)
Variable accepts_arguments : nat -> bool.

(** [arrayBufferToBase64(buffer)]: the bytes are spread into one call of
    [String.fromCharCode]; [None] when that call throws. *)
Definition arrayBufferToBase64 (buffer : list Z) : option string :=
  if accepts_arguments (List.length buffer)
  then Some (Manager.arrayBufferToBase64 btoa buffer)
  else None.

(** [base64ToArrayBuffer(arrayBufferToBase64(buffer))]. *)
Definition there_and_back (buffer : list Z) : option (list Z) :=
  match arrayBufferToBase64 buffer with
  | Some base64String => Manager.base64ToArrayBuffer atob base64String
  | None => None
  end.

End Limits.

(** An engine that takes up to 4096 arguments. *)
Definition example_limit (n : nat) : bool := (n <=? 4096)%nat.

End Codec.

(* ===================================================================== *)
(** ** Capture worklet ([RawAudioProcessor])                              *)
(* ===================================================================== *)

Module Capture.

Local Open Scope list_scope.

Definition TARGET_SAMPLE_RATE : Z := 16000.

Section Worklet.

(** [calculateMaxVolume] is a square root of a mean of squares in floating
    point; its result travels beside the chunk and is kept abstract. *)
Variable number : Type.
Variable calculateMaxVolume : list Q -> number.

Record processor : Type := mkProcessor {
  audioBuffer : list Q;
  bufferThreshold : Z;
  resampler : option (list Q -> list Q)   (* undefined until created *)
}.

(** State set up by the constructor; the resampler, when one is needed,
    arrives later. *)
Definition initial : processor :=
  {| audioBuffer := [];
     bufferThreshold := (TARGET_SAMPLE_RATE / 4)%Z;
     resampler := None |}.

(** The message [processAndSendBuffer] posts: [[pcm16Data, maxVolume]]. *)
Definition message : Type := (list Z * number)%type.

(** [processAndSendBuffer(maxVolume)]. *)
Definition processAndSendBuffer (maxVolume : number) (p : processor)
  : processor * message :=
  ({| audioBuffer := [];
      bufferThreshold := bufferThreshold p;
      resampler := resampler p |},
   (Pcm.encode_buffer (audioBuffer p), maxVolume)).

(** The samples one call of [process] appends: the first channel of the
    first input, resampled when a resampler is there. *)
Definition heard (p : processor) (primaryInput : list (list Q)) : list Q :=
  match primaryInput with
  | [] => []
  | channel :: _ =>
      match resampler p with
      | Some r => r channel
      | None => channel
      end
  end.

(** [process(inputs, outputs)] with [inputs[0] = primaryInput]. *)
Definition process (primaryInput : list (list Q)) (p : processor)
  : processor * option message :=
  match primaryInput with
  | [] => (p, None)
  | _ :: _ =>
      let audioData := heard p primaryInput in
      let p1 := {| audioBuffer := audioBuffer p ++ audioData;
                   bufferThreshold := bufferThreshold p;
                   resampler := resampler p |} in
      let maxVolume := calculateMaxVolume audioData in
      if (bufferThreshold p1 <=? Z.of_nat (List.length (audioBuffer p1)))%Z
      then let '(p2, m) := processAndSendBuffer maxVolume p1 in (p2, Some m)
      else (p1, None)
  end.

(** A run of render quanta; the messages posted, in order. *)
Fixpoint run (blocks : list (list (list Q))) (p : processor)
  : processor * list message :=
  match blocks with
  | [] => (p, [])
  | b :: rest =>
      let '(p1, m) := process b p in
      let '(p2, ms) := run rest p1 in
      (p2, match m with Some x => x :: ms | None => ms end)
  end.

End Worklet.

(** A stand-in for the volume measurement in examples. *)
Definition example_volume (audioData : list Q) : nat := List.length audioData.

(** A quarter of a second of samples in one block, then two more. *)
Definition example_blocks : list (list (list Q)) :=
  [[repeat (1 # 2)%Q 4000]; [[0; 1]%Q]].

End Capture.

(* ===================================================================== *)
(** ** Observations on the playback worklet                               *)
(* ===================================================================== *)

Module PlaybackTrace.

Import Playback.
Local Open Scope list_scope.

(** The samples still to be played: the rest of the chunk in progress,
    then the queue. *)
Definition pending_samples (p : processor) : list Z :=
  match currentAudioBuffer p with
  | Some chunk => skipn (currentPosition p) chunk
  | None => []
  end ++ List.concat (audioBuffers p).

(** The position lies inside the chunk in progress and no queued chunk is
    empty. *)
Definition well_formed (p : processor) : Prop :=
  match currentAudioBuffer p with
  | Some chunk => (currentPosition p < List.length chunk)%nat
  | None => True
  end /\ Forall (fun chunk => chunk <> []) (audioBuffers p).

(** What happens to the worklet: the hardware pulls [n] samples, or a
    message arrives on its port. *)
Inductive event : Type :=
| Pull (n : nat)
| Post (m : message).

(** The notifications the worklet posts over a run, and its final state. *)
Fixpoint run (es : list event) (p : processor)
  : processor * list notification :=
  match es with
  | [] => (p, [])
  | Pull n :: rest =>
      let '(p1, _, note) := process n p in
      let '(p2, notes) := run rest p1 in
      (p2, match note with Some x => x :: notes | None => notes end)
  | Post m :: rest => run rest (onmessage m p)
  end.

(** Each notification carries the opposite of the one before it ([b] at
    the start). *)
Fixpoint alternating (b : bool) (notes : list notification) : Prop :=
  match notes with
  | [] => True
  | Process finished :: rest => finished = negb b /\ alternating finished rest
  end.

End PlaybackTrace.

(* ===================================================================== *)
(** ** Observations on the manager's effect trace                         *)
(* ===================================================================== *)

Module Trace.

Import Manager.
Local Open Scope string_scope.
Local Open Scope list_scope.

(** Event ids of the pongs written to the socket. *)
Definition pongs (es : list effect) : list Z :=
  flat_map (fun e => match e with
                     | SocketSend (Pong event_id) => [event_id]
                     | _ => []
                     end) es.

(** Event ids of the pings among the inputs. *)
Definition pings (inputs : list input) : list Z :=
  flat_map (fun i => match i with
                     | WsMessage (Ping event_id) => [event_id]
                     | _ => []
                     end) inputs.

(** What the message callback received: source and text. *)
Definition messages (es : list effect) : list (string * string) :=
  flat_map (fun e => match e with
                     | OnMessage source message => [(source, message)]
                     | _ => []
                     end) es.

(** The committed utterances among the inputs, tagged by speaker. *)
Definition utterances (inputs : list input) : list (string * string) :=
  flat_map (fun i => match i with
                     | WsMessage (AgentResponse r) => [("ai", r)]
                     | WsMessage (UserTranscript t) => [("user", t)]
                     | _ => []
                     end) inputs.

(** Every element differs from the one before it ([prev] at the start). *)
Fixpoint changes {A : Type} (prev : A) (xs : list A) : Prop :=
  match xs with
  | [] => True
  | x :: rest => x <> prev /\ changes x rest
  end.

(** The status notifications a manager in status [s] can still give. *)
Definition lifecycle (s : status) (notified : list status) : Prop :=
  match s with
  | Connected =>
      notified = [] \/ notified = [Disconnecting] \/
      notified = [Disconnecting; Disconnected] \/ notified = [Disconnected]
  | Connecting | Disconnecting =>
      notified = [] \/ notified = [Disconnected]
  | Disconnected => notified = []
  end.

(** The three pieces of one [endSession] call. *)
Definition endSession_run : list input :=
  [EndSession; EndSessionInputClosed; EndSessionOutputClosed].

End Trace.

(* ===================================================================== *)
(** ** Audio devices ([AudioInputHandler], [AudioOutputHandler])          *)
(* ===================================================================== *)

Module Devices.

Local Open Scope list_scope.

(** The worklet modules the two [create] functions load. *)
Inductive worklet : Type :=
| LibSampleRate            (* the resampler, from the CDN *)
| RawAudioProcessor
| AudioConcatProcessor.

(** What a [create] or [close] does to the platform. *)
Inductive effect : Type :=
| ContextCreated (sampleRate : option Z)   (* new AudioContext returned *)
| ModuleAdded (w : worklet)                (* addModule resolved *)
| StreamAcquired                           (* getUserMedia resolved *)
| TracksStopped                            (* every track of the stream *)
| ContextClosed.

Section Create.

(** Values thrown by the platform. *)
Variable error : Type.

Local Abbreviation result := (Manager.result error).

(** The local variables the [catch] blocks look at: whether each holds an
    object yet. *)
Record locals : Type := mkLocals {
  audioContext : bool;
  audioStream : bool
}.

(** The body of a [try]: it threads the locals, records effects, and
    stops at the first throw. *)
Definition attempt (A : Type) : Type :=
  locals -> list effect * locals * result A.

Definition ret {A : Type} (a : A) : attempt A :=
  fun l => ([], l, Manager.Ok a).

Definition bind {A B : Type} (x : attempt A) (f : A -> attempt B)
  : attempt B :=
  fun l =>
    match x l with
    | (es, l1, Manager.Ok a) =>
        let '(es2, l2, r) := f a l1 in (es ++ es2, l2, r)
    | (es, l1, Manager.Throw e) => (es, l1, Manager.Throw e)
    end.

(** A platform call with the given outcome. *)
Definition call {A : Type} (outcome : result A) : attempt A :=
  fun l => ([], l, outcome).

Definition emit (e : effect) : attempt unit :=
  fun l => ([e], l, Manager.Ok tt).

Definition assign_audioContext : attempt unit :=
  fun l => ([], {| audioContext := true; audioStream := audioStream l |},
            Manager.Ok tt).

Definition assign_audioStream : attempt unit :=
  fun l => ([], {| audioContext := audioContext l; audioStream := true |},
            Manager.Ok tt).

Declare Scope attempt_scope.
Delimit Scope attempt_scope with attempt.
Notation "x <- a ;; b" := (bind a (fun x => b))
  (at level 61, a at next level, right associativity) : attempt_scope.
Notation "a ;; b" := (bind a (fun _ => b))
  (at level 61, right associativity) : attempt_scope.
Local Open Scope attempt_scope.

(** How the platform calls of [AudioInputHandler.create] turn out. *)
Record input_platform : Type := mkInputPlatform {
  getSupportedConstraints_sampleRate : result bool;
  in_new_AudioContext : result unit;
  in_createAnalyser : result unit;
  in_addModule : worklet -> result unit;
  getUserMedia : result unit;
  in_connect : result unit  (* createMediaStreamSource, new AudioWorkletNode,
                               and the two connect calls *)
}.

(** The [try] block of [AudioInputHandler.create]. *)
Definition input_try (targetSampleRate : Z) (pl : input_platform)
  : attempt Manager.AudioInputHandler :=
  supportsCustomSampleRate <- call (getSupportedConstraints_sampleRate pl) ;;
  call (in_new_AudioContext pl) ;;
  assign_audioContext ;;
  emit (ContextCreated (if supportsCustomSampleRate : bool
                        then Some targetSampleRate else None)) ;;
  call (in_createAnalyser pl) ;;
  (if supportsCustomSampleRate : bool then ret tt
   else (call (in_addModule pl LibSampleRate) ;;
         emit (ModuleAdded LibSampleRate))) ;;
  call (in_addModule pl RawAudioProcessor) ;;
  emit (ModuleAdded RawAudioProcessor) ;;
  call (getUserMedia pl) ;;
  assign_audioStream ;;
  emit StreamAcquired ;;
  call (in_connect pl) ;;
  ret Manager.TheAudioInput.

(** Its [catch] block. *)
Definition input_catch (l : locals) : list effect :=
  (if audioStream l then [TracksStopped] else [])
  ++ (if audioContext l then [ContextClosed] else []).

Definition run_create {A : Type} (body : attempt A)
    (handler : locals -> list effect) : list effect * result A :=
  match body {| audioContext := false; audioStream := false |} with
  | (es, _, Manager.Ok a) => (es, Manager.Ok a)
  | (es, l, Manager.Throw e) => (es ++ handler l, Manager.Throw e)
  end.

Definition AudioInputHandler_create (targetSampleRate : Z)
    (pl : input_platform) : list effect * result Manager.AudioInputHandler :=
  run_create (input_try targetSampleRate pl) input_catch.

(** [AudioInputHandler.close()]. *)
Definition AudioInputHandler_close : list effect :=
  [TracksStopped; ContextClosed].

(** How the platform calls of [AudioOutputHandler.create] turn out. *)
Record output_platform : Type := mkOutputPlatform {
  out_new_AudioContext : result unit;
  out_build_graph : result unit;  (* createAnalyser, createGain, connects *)
  out_addModule : worklet -> result unit;
  out_connect : result unit       (* new AudioWorkletNode and its connect *)
}.

(** The [try] block of [AudioOutputHandler.create]. *)
Definition output_try (targetSampleRate : option Z) (pl : output_platform)
  : attempt Manager.AudioOutputHandler :=
  call (out_new_AudioContext pl) ;;
  assign_audioContext ;;
  emit (ContextCreated targetSampleRate) ;;
  call (out_build_graph pl) ;;
  call (out_addModule pl AudioConcatProcessor) ;;
  emit (ModuleAdded AudioConcatProcessor) ;;
  call (out_connect pl) ;;
  ret Manager.TheAudioOutput.

(** Its [catch] block. *)
Definition output_catch (l : locals) : list effect :=
  if audioContext l then [ContextClosed] else [].

Definition AudioOutputHandler_create (targetSampleRate : option Z)
    (pl : output_platform)
  : list effect * result Manager.AudioOutputHandler :=
  run_create (output_try targetSampleRate pl) output_catch.

(** [AudioOutputHandler.close()]. *)
Definition AudioOutputHandler_close : list effect := [ContextClosed].

End Create.

(** Audio contexts and microphone streams left open by a trace. *)
Definition open_contexts (es : list effect) : Z :=
  fold_left (fun n e => match e with
                        | ContextCreated _ => n + 1
                        | ContextClosed => n - 1
                        | _ => n
                        end)%Z es 0%Z.

Definition open_streams (es : list effect) : Z :=
  fold_left (fun n e => match e with
                        | StreamAcquired => n + 1
                        | TracksStopped => n - 1
                        | _ => n
                        end)%Z es 0%Z.

(** A browser without custom sample rates in which the user denies the
    microphone. *)
Definition microphone_denied : input_platform string :=
  {| getSupportedConstraints_sampleRate := Manager.Ok false;
     in_new_AudioContext := Manager.Ok tt;
     in_createAnalyser := Manager.Ok tt;
     in_addModule := fun _ => Manager.Ok tt;
     getUserMedia := Manager.Throw "NotAllowedError"%string;
     in_connect := Manager.Ok tt |}.

(** A browser in which the playback worklet fails to load. *)
Definition module_missing : output_platform string :=
  {| out_new_AudioContext := Manager.Ok tt;
     out_build_graph := Manager.Ok tt;
     out_addModule := fun _ => Manager.Throw "AbortError"%string;
     out_connect := Manager.Ok tt |}.

End Devices.

(* ===================================================================== *)
(** ** States of the hook around one successful start                     *)
(* ===================================================================== *)

Module HookState.

Import Hook.
Local Open Scope list_scope.

(** The hook while the one start it has invoked (in the world [env]) is
    pending, or once that start has given session 0. *)
Definition coalesced {error : Type} (env : Manager.creation error)
    (h : hook error) : Prop :=
  invoked h = [env] /\
  ((conversationRef h = None /\ pendingConversationRef h = Some 0%nat /\
    Forall (fun pk => fst pk = 0%nat) (suspended h) /\
    exists c, In (0%nat, AwaitOwn c) (suspended h)) \/
   (conversationRef h = Some 0%nat /\ suspended h = [])).

End HookState.

(* ===================================================================== *)
(** ** The hook's other operations ([setVolume], [endSession])            *)
(* ===================================================================== *)

Module HookApi.

Local Open Scope list_scope.

Section Api.

Variable error : Type.

(** The hook together with what its callers reach through it: callbacks
    registered with [.then] on the in-flight promise, and the [setVolume]
    and [endSession] calls the conversation objects have received. *)
Record world : Type := mkWorld {
  hook : Hook.hook error;
  thens : list (Hook.promise_id * Q);   (* volume to set once resolved *)
  volumes : list (Hook.session * Q);    (* setVolume calls received *)
  ended : list Hook.session             (* endSession calls received *)
}.

Definition initial : world :=
  {| hook := Hook.initial; thens := []; volumes := []; ended := [] |}.

Inductive event : Type :=
| OfHook (e : Hook.event error)   (* a startSession call, a settlement *)
| SetVolume (volume : Q)
| EndSession.

(** [setVolume({ volume })]: the typed hook also reaches a session that is
    still being started. *)
Definition setVolume (v : Hook.version) (volume : Q) (w : world) : world :=
  let registered :=
    match v, Hook.pendingConversationRef (hook w) with
    | Hook.Typed, Some p => thens w ++ [(p, volume)]
    | _, _ => thens w
    end in
  let received :=
    match Hook.conversationRef (hook w) with
    | Some s => volumes w ++ [(s, volume)]
    | None => volumes w
    end in
  {| hook := hook w; thens := registered; volumes := received;
     ended := ended w |}.

(** [endSession()], up to its await. *)
Definition endSession (w : world) : world :=
  let h := hook w in
  {| hook := {| Hook.conversationRef := None;
                Hook.pendingConversationRef := Hook.pendingConversationRef h;
                Hook.suspended := Hook.suspended h;
                Hook.invoked := Hook.invoked h;
                Hook.finished := Hook.finished h |};
     thens := thens w;
     volumes := volumes w;
     ended := match Hook.conversationRef h with
              | Some s => ended w ++ [s]
              | None => ended w
              end |}.

(** The [.then] callbacks of promise [p] run when it is fulfilled and are
    dropped when it is rejected. *)
Definition run_thens (v : Hook.version) (p : Hook.promise_id) (w : world)
  : world :=
  match nth_error (Hook.invoked (hook w)) p with
  | None => w
  | Some env =>
      let mine := filter (fun pv => Nat.eqb (fst pv) p) (thens w) in
      let others :=
        filter (fun pv => negb (Nat.eqb (fst pv) p)) (thens w) in
      {| hook := hook w;
         thens := others;
         volumes :=
           match Hook.settlement v p env with
           | Manager.Ok s => volumes w ++ map (fun pv => (s, snd pv)) mine
           | Manager.Throw _ => volumes w
           end;
         ended := ended w |}
  end.

Definition step (v : Hook.version) (e : event) (w : world) : world :=
  match e with
  | OfHook (Hook.Settle p) =>
      let w1 := run_thens v p w in
      {| hook := Hook.step v (Hook.Settle p) (hook w1);
         thens := thens w1; volumes := volumes w1; ended := ended w1 |}
  | OfHook e' =>
      {| hook := Hook.step v e' (hook w);
         thens := thens w; volumes := volumes w; ended := ended w |}
  | SetVolume volume => setVolume v volume w
  | EndSession => endSession w
  end.

Definition run (v : Hook.version) (es : list event) (w : world) : world :=
  fold_left (fun acc e => step v e acc) es w.

(** What [startElevenLabsConversation] of the component does with the
    hook once the signed URL has arrived: mute, then start. *)
Definition startElevenLabsConversation (c : Hook.call)
    (env : Manager.creation error) : list event :=
  [SetVolume 0; OfHook (Hook.StartSession c env)].

End Api.

Arguments initial {error}.
Arguments SetVolume {error} volume.
Arguments EndSession {error}.

End HookApi.

(* ===================================================================== *)
(** ** Merging of settings ([mergeObjects], [mergeConfigs])               *)
(* ===================================================================== *)

Module Merge.

Local Open Scope list_scope.

Section Objects.

Variable value : Type.

(** An object: its own enumerable properties in insertion order. *)
Definition object : Type := list (string * value).

(** [o[key]]. *)
Fixpoint get (key : string) (o : object) : option value :=
  match o with
  | [] => None
  | (k, v) :: rest => if String.eqb k key then Some v else get key rest
  end.

(** [o[key] = v]: an existing property keeps its place. *)
Fixpoint set (key : string) (v : value) (o : object) : object :=
  match o with
  | [] => [(key, v)]
  | (k, x) :: rest =>
      if String.eqb k key then (k, v) :: rest else (k, x) :: set key v rest
  end.

(** [Object.assign(target, source)]. *)
Definition assign (target source : object) : object :=
  fold_left (fun t kv => set (fst kv) (snd kv) t) source target.

(** [mergeObjects(...objects)]: a reduce with [Object.assign] from the
    empty object. *)
Definition mergeObjects (objects : list object) : object :=
  fold_left assign objects [].

(** [mergeConfigs(...configs)] of the typed hook:
    [Object.assign({}, DEFAULT_HANDLERS, ...configs)]. *)
Definition mergeConfigs (DEFAULT_HANDLERS : object) (configs : list object)
  : object :=
  fold_left assign (DEFAULT_HANDLERS :: configs) [].

(** The value of [key] in the last of the objects that has it. *)
Definition last_defined (key : string) (objects : list object)
  : option value :=
  fold_left (fun found o => match get key o with
                            | Some v => Some v
                            | None => found
                            end) objects None.

(** An object has each key once. *)
Definition proper (o : object) : Prop := NoDup (map fst o).

End Objects.

End Merge.

(* ===================================================================== *)
(** ** Server action ([getElevenLabsSignedUrl])                           *)
(* ===================================================================== *)

From Stdlib Require DecimalString.

Module Actions.

Local Open Scope string_scope.
Local Open Scope list_scope.

(** What a [throw] carries, as far as the [catch] tells it apart with
    [error instanceof Error]. *)
Inductive thrown : Type :=
| ErrorObject (message : string)
| NotAnError.

Local Abbreviation result := (Manager.result thrown).

(** The value [response.json()] resolves to, as far as [body.signed_url]
    looks at it. *)
Inductive body : Type :=
| Null                                   (* reading a field of it throws *)
| Value (signed_url : option string).    (* the field, when present *)

Record response : Type := mkResponse {
  ok : bool;
  status : Z;
  json : result body
}.

Record request : Type := mkRequest {
  url : string;
  method : string;
  xi_api_key : string      (* the one header that is set *)
}.

(** What the action resolves to: [{ signed_url }] or [{ error }]. *)
Inductive reply : Type :=
| SignedUrl (signed_url : option string)
| Error (error : string).

(** A number in a template literal (an integer here). *)
Definition number_to_string (n : Z) : string :=
  DecimalString.NilZero.string_of_int (Z.to_int n).

Section Action.

(** [process.env.ELEVENLABS_API_KEY], the platform's [fetch], and the
    message of the engine's [TypeError] for a field of [null]. *)
Variable ELEVENLABS_API_KEY : option string.
Variable fetch : request -> result response.
Variable null_field_message : string.

(** [requestHeaders.set('xi-api-key', value)]: the header value as stored
    (normalised), or what the call throws when [value] is not a valid
    header value. *)
Variable headers_set : string -> result string.

(** The [catch] block. *)
Definition on_catch (t : thrown) : reply :=
  Error match t with
        | ErrorObject message => message
        | NotAnError => "Unknown error occurred"
        end.

(** A value is truthy as an API key when it is a non-empty string. *)
Definition configured_key : option string :=
  match ELEVENLABS_API_KEY with
  | Some key => if String.eqb key EmptyString then None else Some key
  | None => None
  end.

Definition signed_url_request (key agentId : string) : request :=
  {| url := "https://api.elevenlabs.io/v1/convai/conversation/get_signed_url?agent_id="
            ++ agentId;
     method := "GET";
     xi_api_key := key |}.

(** [getElevenLabsSignedUrl(agentId)]: the requests it makes and what it
    resolves to. *)
Definition getElevenLabsSignedUrl (agentId : string)
  : list request * reply :=
  match configured_key with
  | None =>
      ([], on_catch (ErrorObject "ElevenLabs API key is not configured"))
  | Some key =>
      match headers_set key with
      | Manager.Throw t => ([], on_catch t)
      | Manager.Ok header =>
          let req := signed_url_request header agentId in
          ([req],
           match fetch req with
           | Manager.Throw t => on_catch t
           | Manager.Ok response =>
               if negb (ok response) then
                 on_catch
                   (ErrorObject ("ElevenLabs API error: "
                                 ++ number_to_string (status response)))
               else
                 match json response with
                 | Manager.Throw t => on_catch t
                 | Manager.Ok Null =>
                     on_catch (ErrorObject null_field_message)
                 | Manager.Ok (Value signed_url) => SignedUrl signed_url
                 end
           end)
      end
  end.

End Action.

(** A platform that stores every header value as given. *)
Definition any_header (value : string) : Manager.result thrown string :=
  Manager.Ok value.

(** A service that answers every request with 401. *)
Definition unauthorized (r : request) : Manager.result thrown response :=
  Manager.Ok {| ok := false; status := 401;
                json := Manager.Ok (Value None) |}.

End Actions.

(* ===================================================================== *)
(** * Properties                                                          *)
(* ===================================================================== *)

(** ** PCM16 round trip *)

Section PcmFacts.

Import Pcm.
Local Open Scope Q_scope.

(** Values in the 16-bit range are stored unchanged. *)
Lemma to_int16_small (x : Q) :
  (-32768 <= trunc x <= 32767)%Z -> to_int16 x = trunc x.
Proof.
  intros H. unfold to_int16. cbv zeta.
  destruct (Z_lt_le_dec (trunc x) 0) as [Hneg | Hpos].
  - replace (trunc x mod 65536)%Z with (trunc x + 65536)%Z.
    + destruct (Z.leb_spec 32768 (trunc x + 65536)); lia.
    + apply Z.mod_unique with (q := (-1)%Z); lia.
  - rewrite Z.mod_small by lia.
    destruct (Z.leb_spec 32768 (trunc x)); lia.
Qed.

Lemma decode_sample_frac (v : Z) : decode_sample v == v # 32768.
Proof.
  unfold decode_sample, Qdiv, Qeq. simpl. lia.
Qed.

(** Truncation of a scaled non-negative sample is the floor. *)
Lemma trunc_nonneg (n : Z) (d : positive) (k : Z) :
  (0 <= n)%Z -> (0 < k)%Z ->
  let t := trunc ((n # d) * inject_Z k) in
  (t * Zpos d <= n * k < (t + 1) * Zpos d)%Z /\ (0 <= t)%Z.
Proof.
  intros Hn Hk t. subst t. unfold trunc. simpl.
  rewrite Pos.mul_1_r.
  rewrite Z.quot_div_nonneg by lia.
  pose proof (Z.div_mod (n * k) (Zpos d) ltac:(lia)) as E.
  pose proof (Z.mod_pos_bound (n * k) (Zpos d) ltac:(lia)) as B.
  split; [nia | apply Z.div_pos; lia].
Qed.

(** Truncation of a scaled non-positive sample is the ceiling. *)
Lemma trunc_neg (n : Z) (d : positive) (k : Z) :
  (n <= 0)%Z -> (0 < k)%Z ->
  let t := trunc ((n # d) * inject_Z k) in
  ((t - 1) * Zpos d < n * k <= t * Zpos d)%Z /\ (t <= 0)%Z.
Proof.
  intros Hn Hk t. subst t. unfold trunc. simpl.
  rewrite Pos.mul_1_r.
  replace (n * k)%Z with (- ((- n) * k))%Z by lia.
  rewrite Z.quot_opp_l by lia.
  rewrite Z.quot_div_nonneg by nia.
  pose proof (Z.div_mod ((-n) * k) (Zpos d) ltac:(lia)) as E.
  pose proof (Z.mod_pos_bound ((-n) * k) (Zpos d) ltac:(lia)) as B.
  assert (0 <= (- n * k) / Zpos d)%Z by (apply Z.div_pos; nia).
  split; nia.
Qed.

(** The clamp leaves a sample of the nominal range as it is (up to the
    representation of 1). *)
Lemma clamp_in_range (x : Q) :
  -1 <= x <= 1 ->
  (Qle_bool 1 x = true /\ math_max (-1) (math_min 1 x) = 1 /\ x == 1) \/
  (Qle_bool 1 x = false /\ math_max (-1) (math_min 1 x) = x).
Proof.
  intros [Hlo Hhi]. unfold math_max, math_min.
  destruct (Qle_bool 1 x) eqn:E.
  - left. apply Qle_bool_iff in E.
    split; [reflexivity | split; [reflexivity |]].
    apply Qle_antisym; assumption.
  - right. split; [reflexivity |].
    apply Qle_bool_iff in Hlo. rewrite Hlo. reflexivity.
Qed.

(** C4, as stated, fails: the sample 65535/65536 (a [Float32] value) is
    encoded as 32766 and decoded as 32766/32768, which is 1.5 quantization
    steps away. *)
Lemma pcm_roundtrip_exceeds_one_step :
  -1 <= 65535 # 65536 <= 1 /\
  encode_sample (65535 # 65536) = 32766%Z /\
  ~ roundtrip_error (65535 # 65536) <= quantization_step.
Proof.
  split; [| split].
  - split; unfold Qle; simpl; lia.
  - vm_compute. reflexivity.
  - unfold Qle. vm_compute. intros H. apply H. reflexivity.
Qed.

(** The error of one conversion there and back. *)
Lemma roundtrip_error_bound (x : Q) :
  -1 <= x <= 1 ->
  roundtrip_error x < 2 * quantization_step /\
  (x < 0 -> roundtrip_error x < quantization_step).
Proof.
  intros Hx. unfold roundtrip_error, quantization_step.
  change (2 * (1 / 32768)) with (2 # 32768).
  change (1 / 32768) with (1 # 32768).
  destruct (clamp_in_range Hx) as [(_ & Hc & Hone) | (Hlt & Hc)];
    unfold encode_sample; cbv zeta; rewrite Hc.
  - (* the sample equals 1 *)
    change (to_int16 (if Qlt_bool 1 0 then 1 * 32768 else 1 * 32767))
      with 32767%Z.
    rewrite Hone. split; [reflexivity |].
    intros H; discriminate H.
  - destruct x as [n d].
    destruct Hx as [Hlo Hhi]. unfold Qle in Hlo, Hhi. simpl in Hlo, Hhi.
    unfold Qlt_bool.
    destruct (Qle_bool 0 (n # d)) eqn:E; simpl negb; cbv iota.
    + (* non-negative sample, scaled by 32767 *)
      apply Qle_bool_iff in E. unfold Qle in E. simpl in E.
      destruct (@trunc_nonneg n d 32767 ltac:(lia) ltac:(lia)) as [Ht Ht0].
      cbv zeta in Ht, Ht0. change (inject_Z 32767) with 32767 in Ht, Ht0.
      pose proof (@to_int16_small ((n # d) * 32767)) as Hs.
      remember (trunc ((n # d) * 32767)) as t eqn:Et. clear Et.
      assert (Hub : (t <= 32767)%Z)
        by (apply Z.mul_le_mono_pos_r with (p := Zpos d); lia).
      rewrite Hs by lia.
      rewrite decode_sample_frac.
      split.
      * apply Qabs_Qlt_condition.
        unfold Qlt, Qminus, Qplus, Qopp; cbn [Qnum Qden];
          rewrite ?Pos2Z.inj_mul; nia.
      * intros Hneg. unfold Qlt in Hneg. simpl in Hneg. lia.
    + (* negative sample, scaled by 32768 *)
      assert (Hn : (n < 0)%Z).
      { destruct (Z_lt_le_dec n 0) as [H | H]; [exact H |].
        assert (Qle_bool 0 (n # d) = true) as C
          by (apply Qle_bool_iff; unfold Qle; simpl; lia).
        rewrite C in E. discriminate E. }
      destruct (@trunc_neg n d 32768 ltac:(lia) ltac:(lia)) as [Ht Ht0].
      cbv zeta in Ht, Ht0. change (inject_Z 32768) with 32768 in Ht, Ht0.
      pose proof (@to_int16_small ((n # d) * 32768)) as Hs.
      remember (trunc ((n # d) * 32768)) as t eqn:Et. clear Et.
      assert (Hlb : (-32768 <= t)%Z)
        by (apply Z.mul_le_mono_pos_r with (p := Zpos d); lia).
      rewrite Hs by lia.
      rewrite decode_sample_frac.
      split; [| intros _];
        apply Qabs_Qlt_condition;
        unfold Qlt, Qminus, Qplus, Qopp; cbn [Qnum Qden];
        rewrite ?Pos2Z.inj_mul; nia.
Qed.

(** C4 (amended): for every sample in [-1, 1], encoding to PCM16 as the
    capture worklet does and decoding as the playback worklet does changes
    the value by less than two quantization steps, and by less than one
    step when the sample is negative. *)
Theorem pcm_roundtrip_within_two_steps (x : Q) :
  -1 <= x <= 1 ->
  roundtrip_error x < 2 * quantization_step /\
  (x < 0 -> roundtrip_error x < quantization_step).
Proof.
  exact (@roundtrip_error_bound x).
Qed.

(** The bound at the sample -1/3. *)
Lemma pcm_roundtrip_within_two_steps_witness :
  -1 <= -(1 # 3) <= 1 /\ -(1 # 3) < 0 /\
  roundtrip_error (-(1 # 3)) < quantization_step.
Proof.
  assert (H : -1 <= -(1 # 3) <= 1) by (split; unfold Qle; simpl; lia).
  assert (N : -(1 # 3) < 0) by (unfold Qlt; simpl; lia).
  split; [exact H | split; [exact N |]].
  exact (proj2 (pcm_roundtrip_within_two_steps H) N).
Defined.

(** The same bound for a whole buffer sent by the capture worklet. *)
Lemma pcm_buffer_roundtrip (buffer : list Q) :
  Forall (fun x => -1 <= x <= 1) buffer ->
  Forall2 (fun x v => Qabs (decode_sample v - x) < 2 * quantization_step)
          buffer (encode_buffer buffer).
Proof.
  induction 1 as [| x xs Hx _ IH]; simpl; constructor.
  - exact (proj1 (roundtrip_error_bound Hx)).
  - exact IH.
Qed.

End PcmFacts.

(** ** Playback worklet *)

Section PlaybackFacts.

Import Playback.

Lemma processAudioOutput_isInterrupted (n : nat) (p : processor) :
  isInterrupted (fst (fst (processAudioOutput n p))) = isInterrupted p.
Proof.
  revert p. induction n as [| n IH]; intros p; simpl; [reflexivity |].
  unfold load_chunk.
  destruct (currentAudioBuffer p) as [chunk |] eqn:Ec.
  - unfold emit_sample.
    match goal with
    | |- context [processAudioOutput n ?q] =>
        specialize (IH q); destruct (processAudioOutput n q) as [[p3 xs] fin]
    end.
    simpl in *. exact IH.
  - destruct (audioBuffers p) as [| chunk rest]; [reflexivity |].
    unfold emit_sample.
    match goal with
    | |- context [processAudioOutput n ?q] =>
        specialize (IH q); destruct (processAudioOutput n q) as [[p3 xs] fin]
    end.
    simpl in *. exact IH.
Qed.

Lemma process_isInterrupted (n : nat) (p : processor) :
  isInterrupted (fst (fst (process n p))) = isInterrupted p.
Proof.
  unfold process.
  pose proof (processAudioOutput_isInterrupted n p) as H.
  destruct (processAudioOutput n p) as [[p1 written] fin]. simpl in H.
  destruct (Bool.eqb (isFinished p1) fin); simpl; exact H.
Qed.

(** Hardware pulls never touch the interrupted flag. *)
Lemma pulls_isInterrupted (ns : list nat) (p : processor) :
  isInterrupted (pulls ns p) = isInterrupted p.
Proof.
  revert p. induction ns as [| n ns IH]; intros p; simpl; [reflexivity |].
  rewrite IH. apply process_isInterrupted.
Qed.

(** C6: [clearInterrupted] after [interrupt] (with any number of hardware
    pulls, but no new buffer, in between) empties the pending queue, drops
    the chunk in progress and clears the flag; on a processor whose flag is
    not set it changes nothing. *)
Theorem clearInterrupted_after_interrupt
    (p : processor) (ns : list nat) (q : processor) :
  isInterrupted q = false ->
  (let p' := handleClearInterruption (pulls ns (handleInterruption p)) in
   audioBuffers p' = [] /\ currentAudioBuffer p' = None /\
   isInterrupted p' = false) /\
  handleClearInterruption q = q.
Proof.
  intros Hq. split.
  - cbv zeta. unfold handleClearInterruption.
    rewrite pulls_isInterrupted. simpl. repeat split.
  - unfold handleClearInterruption. rewrite Hq. reflexivity.
Qed.

(** A queue of two chunks, one of them half played, is flushed; the same
    queue without an interruption is kept. *)
Lemma clearInterrupted_after_interrupt_witness :
  isInterrupted playing_example = false /\
  audioBuffers
    (handleClearInterruption
       (pulls [1%nat] (handleInterruption playing_example))) = [] /\
  handleClearInterruption playing_example = playing_example.
Proof.
  split; [reflexivity |].
  pose proof (@clearInterrupted_after_interrupt
                playing_example [1%nat] playing_example eq_refl)
    as [(H & _) E].
  split; [exact H | exact E].
Defined.

End PlaybackFacts.

(** ** Handshake *)

Section SignalingFacts.

Import Signaling.

Variable parse_rate : string -> option Z.

Lemma deliver_all_cons (e : socket_event) (es : list socket_event)
    (w : waiting) :
  deliver_all (e :: es) w = deliver_all es (deliver e w).
Proof. reflexivity. Qed.

(** One event leaves a settled promise as it is. *)
Lemma deliver_settled (e : socket_event) (w : waiting) :
  settled w <> Pending -> settled (deliver e w) = settled w.
Proof.
  intros Hw. destruct e as [| | f]; simpl.
  - destruct (settled w); [contradiction | reflexivity | reflexivity].
  - destruct (settled w); [contradiction | reflexivity | reflexivity].
  - destruct (messageListener w); [| reflexivity]. simpl.
    destruct (settled w) eqn:Es; [contradiction | |];
      destruct f as [| [t |] ev]; simpl; try reflexivity;
      destruct (negb (String.eqb t EmptyString)); try reflexivity;
      destruct (String.eqb t _); reflexivity.
Qed.

(** A settled promise stays as it is. *)
Lemma deliver_all_settled (es : list socket_event) (w : waiting) :
  settled w <> Pending ->
  settled (deliver_all es w) = settled w.
Proof.
  revert w. induction es as [| e es IH]; intros w Hw; [reflexivity |].
  rewrite deliver_all_cons.
  pose proof (deliver_settled e w Hw) as E.
  rewrite IH; [exact E | rewrite E; exact Hw].
Qed.

(** Once the message listener is gone, only an error or a close settles
    the promise. *)
Lemma deliver_all_without_listener (es : list socket_event) (w : waiting) :
  settled w = Pending -> messageListener w = false ->
  settled (deliver_all es w) =
    match first_failure es with
    | Some r => Rejected r
    | None => Pending
    end.
Proof.
  revert w. induction es as [| e es IH]; intros w Hp Hl; [exact Hp |].
  rewrite deliver_all_cons.
  destruct e as [| | f]; simpl first_failure.
  - rewrite deliver_all_settled; simpl; rewrite Hp; [reflexivity |].
    simpl. discriminate.
  - rewrite deliver_all_settled; simpl; rewrite Hp; [reflexivity |].
    simpl. discriminate.
  - simpl deliver. rewrite Hl. apply IH; assumption.
Qed.

(** The listener leaves the promise alone on a frame that is not a
    handshake event. *)
Lemma on_first_message_other (f : frame) (p : promise (option metadata)) :
  is_metadata f = false -> on_first_message f p = p.
Proof.
  destruct f as [| [t |] ev]; simpl; intros H; try reflexivity.
  rewrite H. destruct (negb (String.eqb t EmptyString)); reflexivity.
Qed.

(** The outcome of [create] when the first frame is not a handshake. *)
Lemma create_unexpected_first (f : frame) (rest : list socket_event) :
  is_metadata f = false ->
  create parse_rate (SockMessage f :: rest) =
    match first_failure rest with
    | Some r => Failed r
    | None => Awaiting
    end.
Proof.
  intros H. unfold create. rewrite deliver_all_cons.
  simpl deliver. rewrite on_first_message_other by exact H.
  rewrite deliver_all_without_listener by reflexivity.
  destruct (first_failure rest); reflexivity.
Qed.

(** The outcome of [create] when the socket fails before any frame. *)
Lemma create_error_first (rest : list socket_event) :
  create parse_rate (SockError :: rest) = Failed ErrorEvent /\
  create parse_rate (SockClose :: rest) = Failed CloseEvent.
Proof.
  split; unfold create; rewrite deliver_all_cons;
    rewrite deliver_all_settled by (simpl; discriminate); reflexivity.
Qed.

(** The outcome of [create] when the first frame is a handshake event. *)
Lemma create_metadata_first (m : metadata) (rest : list socket_event) :
  create parse_rate
    (SockMessage (Parsed (Some "conversation_initiation_metadata"%string)
                         (Some m)) :: rest) =
    Created {| conversationId := conversation_id m;
               sampleRate := parse_rate (agent_output_audio_format m) |}.
Proof.
  unfold create. rewrite deliver_all_cons.
  rewrite deliver_all_settled by (simpl; discriminate). reflexivity.
Qed.

(** C3, as stated, fails: after a first frame that is not a handshake
    event the attempt has not failed, and with its message listener gone
    even a handshake frame that follows leaves it pending. *)
Lemma handshake_unexpected_first_frame_pending :
  create example_parse_rate [SockMessage ping_frame] = Awaiting /\
  create example_parse_rate
    [SockMessage ping_frame; SockMessage metadata_frame] = Awaiting /\
  ~ (exists r, create example_parse_rate [SockMessage ping_frame] = Failed r).
Proof.
  split; [reflexivity | split; [reflexivity |]].
  intros [r H]. discriminate H.
Qed.

(** C3 (amended): when the socket errors or closes before any frame has
    arrived, the connect attempt fails with that event.  When the first
    inbound frame is not a conversation_initiation_metadata event, the
    attempt never succeeds; it stays pending, whatever frames follow, until
    the socket errors or closes, and fails with that event then. *)
Theorem handshake_failure (f : frame) (rest : list socket_event) :
  is_metadata f = false ->
  create parse_rate (SockError :: rest) = Failed ErrorEvent /\
  create parse_rate (SockClose :: rest) = Failed CloseEvent /\
  create parse_rate (SockMessage f :: rest) =
    match first_failure rest with
    | Some r => Failed r
    | None => Awaiting
    end.
Proof.
  intros H.
  destruct (create_error_first rest) as [He Hc].
  split; [exact He | split; [exact Hc |]].
  apply create_unexpected_first. exact H.
Qed.

End SignalingFacts.

(** A heartbeat first, a late handshake frame, then the socket closes:
    the attempt fails with the close event. *)
Lemma handshake_failure_witness :
  Signaling.is_metadata Signaling.ping_frame = false /\
  Signaling.create Signaling.example_parse_rate
    [Signaling.SockMessage Signaling.ping_frame;
     Signaling.SockMessage Signaling.metadata_frame;
     Signaling.SockClose] = Signaling.Failed Signaling.CloseEvent.
Proof.
  split; [reflexivity |].
  exact (proj2 (proj2
    (@handshake_failure Signaling.example_parse_rate Signaling.ping_frame
       [Signaling.SockMessage Signaling.metadata_frame; Signaling.SockClose]
       eq_refl))).
Defined.

(** ** Conversation manager *)

Section ManagerFacts.

Import Manager.
Local Open Scope Z_scope.
Local Open Scope list_scope.

Variable atob : string -> option string.
Variable btoa : string -> string.

Local Abbreviation step := (Manager.step atob btoa).
Local Abbreviation run := (Manager.run atob btoa).

(** Unfolds the methods down to the state and trace they produce. *)
Ltac unfold_methods :=
  unfold Manager.step, handleWebSocketMessage, handleWebSocketError,
    handleWebSocketClose, handleInputAudioMessage, handleOutputAudioMessage,
    fadeTimeout, setVolume, endSession, endSession_inputClosed,
    endSession_outputClosed, handleInterruption, handleIncomingAudio,
    processIncomingAudio, handleAgentResponse, handleUserTranscript,
    handleTentativeResponse, handlePing, handleError, fadeOutAudio,
    updateConversationMode, updateConnectionStatus,
    seq, emit, modify, skip in *.

Ltac split_ifs :=
  repeat match goal with
         | |- context [if ?b then _ else _] => destruct b eqn:?
         | |- context [match base64ToArrayBuffer ?f ?s with _ => _ end] =>
             destruct (base64ToArrayBuffer f s) eqn:?
         end.

Lemma mode_eqb_spec (a b : mode) : reflect (a = b) (mode_eqb a b).
Proof. destruct a, b; constructor; congruence. Qed.

Lemma status_eqb_spec (a b : status) : reflect (a = b) (status_eqb a b).
Proof. destruct a, b; constructor; congruence. Qed.

Lemma run_cons (i : input) (rest : list input) (m : manager) :
  run (i :: rest) m =
    (fst (run rest (fst (step i m))),
     snd (step i m) ++ snd (run rest (fst (step i m)))).
Proof.
  simpl. unfold seq at 1.
  destruct (step i m) as [m1 e1]. simpl.
  destruct (run rest m1) as [m2 e2]. reflexivity.
Qed.

Lemma run_app (a b : list input) (m : manager) :
  run (a ++ b) m =
    (fst (run b (fst (run a m))),
     snd (run a m) ++ snd (run b (fst (run a m)))).
Proof.
  revert m. induction a as [| i a IH]; intros m.
  - simpl. destruct (run b m); reflexivity.
  - rewrite <- app_comm_cons. rewrite !run_cons. rewrite IH. simpl.
    rewrite app_assoc. reflexivity.
Qed.

(** What one callback does to [lastInterruptTime]. *)
Lemma step_lastInterruptTime (i : input) (m : manager) :
  lastInterruptTime (fst (step i m)) =
    match interrupt_id i with
    | Some event_id => event_id
    | None => lastInterruptTime m
    end.
Proof.
  destruct i as [d | | | pcm | fin | | v | | |];
    [destruct d as [| | [[k |] |] | r | t | r | id a | id | t] | ..];
    try destruct fin;
    unfold_methods; simpl; split_ifs; reflexivity.
Qed.

(** Inputs that store nothing leave [lastInterruptTime] alone. *)
Lemma run_lastInterruptTime (inputs : list input) (m : manager) :
  Forall (fun i => interrupt_id i = None) inputs ->
  lastInterruptTime (fst (run inputs m)) = lastInterruptTime m.
Proof.
  intros H. revert m. induction H as [| i rest Hi _ IH]; intros m.
  - reflexivity.
  - rewrite run_cons. cbn [fst]. rewrite IH, step_lastInterruptTime, Hi.
    reflexivity.
Qed.

(** No callback replaces the settings. *)
Lemma step_settings (i : input) (m : manager) :
  settings (fst (step i m)) = settings m.
Proof.
  destruct i as [d | | | pcm | fin | | v | | |];
    [destruct d as [| | [[k |] |] | r | t | r | id a | id | t] | ..];
    try destruct fin;
    unfold_methods; simpl; split_ifs; reflexivity.
Qed.

Lemma run_settings (inputs : list input) (m : manager) :
  settings (fst (run inputs m)) = settings m.
Proof.
  revert m. induction inputs as [| i rest IH]; intros m; [reflexivity |].
  rewrite run_cons. cbn [fst]. rewrite IH. apply step_settings.
Qed.

(** What an audio event that passes the guard does to the mode, whether
    or not its payload reaches the playback worklet. *)
Lemma guarded_audio_mode (id : Z) (payload : string) (m : manager) :
  js_le (lastInterruptTime m) id = true ->
  conversationMode (fst (step (WsMessage (Audio id payload)) m)) = Speaking /\
  lastInterruptTime (fst (step (WsMessage (Audio id payload)) m))
    = lastInterruptTime m /\
  mode_changes (snd (step (WsMessage (Audio id payload)) m)) =
    (if mode_eqb Speaking (conversationMode m) then [] else [Speaking]).
Proof.
  intros H. unfold_methods. rewrite H.
  destruct (base64ToArrayBuffer atob payload);
    destruct m as [[[|]] cid last [| |] st vol gain];
    repeat split; reflexivity.
Qed.

(** What an accepted audio event does when its payload decodes and the
    settings have an [onAudioData]. *)
Lemma accepted_audio (id : Z) (payload : string) (buffer : list Z)
    (m : manager) :
  js_le (lastInterruptTime m) id = true ->
  has_onAudioData (settings m) = true ->
  base64ToArrayBuffer atob payload = Some buffer ->
  step (WsMessage (Audio id payload)) m =
    (set_conversationMode Speaking (set_gainValue (audioVolume m) m),
     [OnAudioData buffer;
      PostToOutput Playback.MsgClearInterrupted;
      PostToOutput (Playback.MsgBuffer buffer)]
     ++ (if mode_eqb Speaking (conversationMode m) then []
         else [OnModeChange Speaking])).
Proof.
  intros H Hs Hb.
  unfold_methods. rewrite H, Hb, Hs.
  destruct m as [cfg cid last [| |] st vol gain]; reflexivity.
Qed.

(** What a stale audio event does: nothing. *)
Lemma dropped_audio (id : Z) (payload : string) (m : manager) :
  js_le (lastInterruptTime m) id = false ->
  step (WsMessage (Audio id payload)) m = (m, []).
Proof.
  intros H. unfold_methods. rewrite H. reflexivity.
Qed.

(** C1, as stated, fails: after interruptions with ids 3 and then 5, on a
    manager whose settings have an [onAudioData], an audio event with id
    4 and a decodable payload is dropped although an interruption with
    id 3, which is not above 4, has been processed. *)
Lemma audio_after_earlier_interruption_dropped :
  example_twice_interrupted =
    fst (Manager.run example_atob example_btoa
           ([] ++ WsMessage (Interruption (Some (Some 3)))
               :: [WsMessage (Interruption (Some (Some 5)))])
           example_manager) /\
  3 <= 4 /\
  has_onAudioData (settings example_twice_interrupted) = true /\
  base64ToArrayBuffer example_atob "AAAA" = Some [65; 65; 65; 65] /\
  Manager.step example_atob example_btoa (WsMessage (Audio 4 "AAAA"))
    example_twice_interrupted = (example_twice_interrupted, []).
Proof.
  split; [reflexivity | split; [lia |]].
  split; [reflexivity | split; reflexivity].
Qed.

(** C1 (amended): the guard compares with the id of the latest
    interruption.  Once an interruption whose event object carries id [k]
    has been processed and no later callback stored another value,
    whatever other callbacks ran before or after it, an audio event with
    id below [k] is dropped (the state is unchanged and nothing is
    emitted), and an audio event with id at least [k] sets the mode to
    speaking; when the settings have an [onAudioData] and the payload is
    valid base64, the payload is decoded, handed to the audio sink and
    posted to the playback worklet behind a clearInterrupted message, the
    gain takes the configured volume, and for a payload of even byte
    length the worklet appends the chunk to its queue. *)
Theorem audio_ordering_guard
    (pre mid : list input) (k : Z) (m0 : manager)
    (id : Z) (payload : string) (buffer chunk : list Z)
    (p : Playback.processor) :
  Forall (fun i => interrupt_id i = None) mid ->
  let m :=
    fst (run (pre ++ WsMessage (Interruption (Some (Some k))) :: mid) m0) in
  let m' := fst (step (WsMessage (Audio id payload)) m) in
  let es := snd (step (WsMessage (Audio id payload)) m) in
  lastInterruptTime m = Some k /\
  (id < k -> m' = m /\ es = []) /\
  (k <= id ->
     conversationMode m' = Speaking /\
     (has_onAudioData (settings m0) = true ->
      base64ToArrayBuffer atob payload = Some buffer ->
      es = [OnAudioData buffer;
            PostToOutput Playback.MsgClearInterrupted;
            PostToOutput (Playback.MsgBuffer buffer)]
           ++ (if mode_eqb Speaking (conversationMode m) then []
               else [OnModeChange Speaking]) /\
      gainValue m' = audioVolume m /\
      (Playback.int16_view buffer = Some chunk ->
       Playback.audioBuffers (Playback.deliver (posted es) p) =
         (if Playback.isInterrupted p then []
          else Playback.audioBuffers p) ++ [chunk] /\
       Playback.isInterrupted (Playback.deliver (posted es) p) = false))).
Proof.
  intros Hmid m m' es.
  assert (Hk : lastInterruptTime m = Some k).
  { subst m. rewrite run_app. cbn [fst]. rewrite run_cons. cbn [fst].
    rewrite run_lastInterruptTime by exact Hmid.
    rewrite step_lastInterruptTime. reflexivity. }
  split; [exact Hk | split].
  - intros Hlt. subst m' es.
    rewrite dropped_audio
      by (rewrite Hk; cbn [js_le]; apply Z.leb_gt; exact Hlt).
    split; reflexivity.
  - intros Hle.
    assert (G : js_le (lastInterruptTime m) id = true)
      by (rewrite Hk; cbn [js_le]; apply Z.leb_le; exact Hle).
    split; [exact (proj1 (@guarded_audio_mode id payload m G)) |].
    intros Hs Hb. subst m' es.
    rewrite (@accepted_audio id payload buffer m G)
      by (try exact Hb; subst m; rewrite run_settings; exact Hs).
    cbn [fst snd].
    split; [reflexivity | split; [reflexivity |]].
    intros Hv.
    destruct (mode_eqb Speaking (conversationMode m));
      cbn; unfold Playback.handleNewBuffer, Playback.handleClearInterruption;
      rewrite Hv; destruct (Playback.isInterrupted p);
      split; reflexivity.
Qed.

(** C7: the mode-change notification fires exactly when the new mode
    differs from the stored one: a call with the current mode changes
    nothing and notifies nobody, a call with another mode stores it and
    notifies once; two consecutive accepted audio events in listening mode
    give exactly one notification, the one to speaking. *)
Theorem mode_change_edge_triggered
    (m : manager) (newMode : mode) (id1 id2 : Z) (a1 a2 : string) :
  (newMode = conversationMode m ->
   updateConversationMode newMode m = (m, [])) /\
  (newMode <> conversationMode m ->
   snd (updateConversationMode newMode m) = [OnModeChange newMode] /\
   conversationMode (fst (updateConversationMode newMode m)) = newMode) /\
  (conversationMode m = Listening ->
   js_le (lastInterruptTime m) id1 = true ->
   js_le (lastInterruptTime m) id2 = true ->
   mode_changes
     (snd (run [WsMessage (Audio id1 a1); WsMessage (Audio id2 a2)] m))
   = [Speaking]).
Proof.
  split; [| split].
  - intros E. unfold updateConversationMode.
    destruct (mode_eqb_spec newMode (conversationMode m)); [reflexivity |].
    contradiction.
  - intros E. unfold updateConversationMode.
    destruct (mode_eqb_spec newMode (conversationMode m)); [contradiction |].
    split; reflexivity.
  - intros Hmode H1 H2.
    rewrite run_cons, run_cons. cbn [Manager.run skip fst snd].
    destruct (@guarded_audio_mode id1 a1 m H1) as (M1 & L1 & N1).
    rewrite <- L1 in H2.
    destruct (@guarded_audio_mode id2 a2 _ H2) as (_ & _ & N2).
    rewrite app_nil_r. unfold mode_changes in *.
    rewrite flat_map_app. rewrite N1, N2, M1, Hmode. reflexivity.
Qed.

(** C8, as stated, fails: while audio is playing, [setVolume] changes the
    configured volume and leaves the gain of the output node where it
    was. *)
Lemma setVolume_leaves_live_gain :
  conversationMode example_speaking = Speaking /\
  audioVolume
    (fst (Manager.step example_atob example_btoa (SetVolume (1 # 2))
            example_speaking)) = (1 # 2)%Q /\
  gainValue
    (fst (Manager.step example_atob example_btoa (SetVolume (1 # 2))
            example_speaking)) = 1%Q /\
  snd (Manager.step example_atob example_btoa (SetVolume (1 # 2))
         example_speaking) = [].
Proof. repeat split. Qed.

(** C8 (amended): [setVolume(level)] updates the configured volume
    immediately and does nothing else: the gain of the output node keeps
    its value, and takes the configured one when the next audio event is
    accepted, decoded and handed to the [onAudioData] of the settings, or
    when the timer of a fade-out fires. *)
Theorem setVolume_configured_gain
    (m : manager) (volume : Q) (id : Z) (payload : string)
    (buffer : list Z) :
  js_le (lastInterruptTime m) id = true ->
  has_onAudioData (settings m) = true ->
  base64ToArrayBuffer atob payload = Some buffer ->
  step (SetVolume volume) m = (set_audioVolume volume m, []) /\
  gainValue (fst (step (SetVolume volume) m)) = gainValue m /\
  gainValue (fst (step (WsMessage (Audio id payload))
                    (fst (step (SetVolume volume) m)))) = volume /\
  gainValue (fst (step FadeTimeout (fst (step (SetVolume volume) m))))
    = volume.
Proof.
  intros H Hs Hb. split; [reflexivity | split; [reflexivity | split]].
  - change (fst (step (SetVolume volume) m)) with (set_audioVolume volume m).
    rewrite (@accepted_audio id payload buffer (set_audioVolume volume m))
      by assumption.
    reflexivity.
  - reflexivity.
Qed.

(** C9, as stated, fails: an interruption with id 3 that follows one with
    id 5 takes [lastInterruptTime] from 5 down to 3. *)
Lemma lastInterruptTime_can_decrease :
  lastInterruptTime example_interrupted = Some 5 /\
  lastInterruptTime
    (fst (Manager.step example_atob example_btoa
            (WsMessage (Interruption (Some (Some 3)))) example_interrupted))
    = Some 3 /\
  ~ (5 <= 3).
Proof.
  split; [reflexivity | split; [reflexivity | lia]].
Qed.

Lemma run_ascending (inputs : list input) (m : manager) (a : Z) :
  lastInterruptTime m = Some a ->
  interrupt_ids_ascend a inputs ->
  exists b, lastInterruptTime (fst (run inputs m)) = Some b /\ a <= b.
Proof.
  revert m a. induction inputs as [| i rest IH]; intros m a Hm H.
  - exists a. split; [exact Hm | lia].
  - rewrite run_cons. cbn [fst].
    pose proof (step_lastInterruptTime i m) as E.
    simpl in H. destruct (interrupt_id i) as [[k |] |].
    + destruct H as [Hk Hrest].
      destruct (IH _ k E Hrest) as (b & Hb & Hkb).
      exists b. split; [exact Hb | lia].
    + contradiction.
    + rewrite Hm in E. exact (IH _ a E H).
Qed.

Lemma ascend_app (pre post : list input) (current : Z) (m : manager) :
  lastInterruptTime m = Some current ->
  interrupt_ids_ascend current (pre ++ post) ->
  exists c, lastInterruptTime (fst (run pre m)) = Some c /\
            interrupt_ids_ascend c post.
Proof.
  revert current m. induction pre as [| i pre IH]; intros current m Hm H.
  - exists current. split; [exact Hm | exact H].
  - rewrite run_cons. cbn [fst]. simpl in H.
    pose proof (step_lastInterruptTime i m) as E.
    destruct (interrupt_id i) as [[k |] |].
    + destruct H as [_ H]. exact (IH k _ E H).
    + contradiction.
    + rewrite Hm in E. exact (IH current _ E H).
Qed.

(** C9 (amended): [lastInterruptTime] starts at 0; an interruption whose
    event object carries an id sets it to that id, and a callback that is
    not an interruption with an event object leaves it as it is.  So over
    a sequence of inputs in which every interruption event object carries
    an id and these ids arrive in non-decreasing order, starting from 0,
    its value after each input is at least its value before. *)
Theorem lastInterruptTime_monotone
    (config : ConversationConfig) (cid : string)
    (pre : list input) (i : input) (post : list input) :
  interrupt_ids_ascend 0 (pre ++ i :: post) ->
  let m := fst (run pre (fst (constructor config cid))) in
  lastInterruptTime (fst (constructor config cid)) = Some 0 /\
  (forall k, interrupt_id i = Some (Some k) ->
             lastInterruptTime (fst (step i m)) = Some k) /\
  (interrupt_id i = None ->
   lastInterruptTime (fst (step i m)) = lastInterruptTime m) /\
  exists before after,
    lastInterruptTime m = Some before /\
    lastInterruptTime (fst (step i m)) = Some after /\
    before <= after.
Proof.
  intros H m. split; [reflexivity | split; [| split]].
  - intros k E. rewrite step_lastInterruptTime, E. reflexivity.
  - intros E. rewrite step_lastInterruptTime, E. reflexivity.
  - destruct (@ascend_app pre (i :: post) 0 (fst (constructor config cid))
                eq_refl H) as (c & Hc & A).
    fold m in Hc. simpl in A.
    exists c. rewrite step_lastInterruptTime, Hc.
    destruct (interrupt_id i) as [[k |] |].
    + exists k. destruct A as [A _]. repeat split; assumption.
    + contradiction.
    + exists c. repeat split; lia.
Qed.

(** A captured chunk is sent exactly when the status is connected. *)
Lemma input_audio_step (pcm : list Z) (m : manager) :
  step (InputAudio pcm) m =
    (m, if status_eqb (connectionStatus m) Connected
        then [SocketSend (UserAudioChunk
                (arrayBufferToBase64 btoa (buffer_of_int16 pcm)))]
        else []).
Proof.
  unfold_methods. destruct (status_eqb (connectionStatus m) Connected);
    reflexivity.
Qed.

(** No other callback writes an audio chunk to the socket. *)
Lemma other_step_sends_no_chunk (i : input) (m : manager) :
  (forall pcm, i <> InputAudio pcm) ->
  sent_chunks (snd (step i m)) = [].
Proof.
  intros H.
  destruct i as [d | | | pcm | fin | | v | | |];
    [destruct d as [| | [[k |] |] | r | t | r | id a | id | t] | ..];
    try (exfalso; exact (H pcm eq_refl));
    try destruct fin;
    unfold_methods; simpl; split_ifs; reflexivity.
Qed.

Lemma sent_chunks_app (a b : list effect) :
  sent_chunks (a ++ b) = sent_chunks a ++ sent_chunks b.
Proof. unfold sent_chunks. apply flat_map_app. Qed.


End ManagerFacts.

(** The guard after the example run: an audio event with id 4 is dropped,
    one with id 5 is accepted and its chunk is queued. *)
Lemma audio_ordering_guard_witness :
  Forall (fun i => Manager.interrupt_id i = None)
    [Manager.FadeTimeout; Manager.WsMessage (Manager.Ping 1%Z)] /\
  Manager.step Manager.example_atob Manager.example_btoa
    (Manager.WsMessage (Manager.Audio 4%Z "AAAA"%string))
    Manager.example_interrupted = (Manager.example_interrupted, []) /\
  Manager.has_onAudioData (Manager.settings Manager.example_manager) = true /\
  Manager.base64ToArrayBuffer Manager.example_atob "AAAA"%string
    = Some [65; 65; 65; 65]%Z /\
  Playback.int16_view [65; 65; 65; 65]%Z = Some [16705; 16705]%Z /\
  Playback.audioBuffers
    (Playback.deliver
       (Manager.posted
          (snd (Manager.step Manager.example_atob Manager.example_btoa
                  (Manager.WsMessage (Manager.Audio 5%Z "AAAA"%string))
                  Manager.example_interrupted)))
       Playback.playing_example)
    = [[7; 8]; [9]; [16705; 16705]]%Z.
Proof.
  assert (H : Forall (fun i => Manager.interrupt_id i = None)
                [Manager.FadeTimeout; Manager.WsMessage (Manager.Ping 1%Z)])
    by (repeat constructor).
  assert (Hs : Manager.has_onAudioData
                 (Manager.settings Manager.example_manager) = true)
    by reflexivity.
  assert (Hb : Manager.base64ToArrayBuffer Manager.example_atob
                 "AAAA"%string = Some [65; 65; 65; 65]%Z)
    by reflexivity.
  assert (Hv : Playback.int16_view [65; 65; 65; 65]%Z
               = Some [16705; 16705]%Z)
    by reflexivity.
  split; [exact H | split; [| split; [exact Hs | split; [exact Hb |
    split; [exact Hv |]]]]].
  - pose proof (@audio_ordering_guard Manager.example_atob
                  Manager.example_btoa [] _ 5%Z Manager.example_manager
                  4%Z "AAAA"%string [] [] Playback.initial H) as G.
    cbv zeta in G. destruct G as (_ & G & _).
    destruct (G ltac:(lia)) as [G1 G2].
    rewrite (surjective_pairing (Manager.step _ _ _ _)).
    f_equal; assumption.
  - pose proof (@audio_ordering_guard Manager.example_atob
                  Manager.example_btoa [] _ 5%Z Manager.example_manager
                  5%Z "AAAA"%string [65; 65; 65; 65]%Z [16705; 16705]%Z
                  Playback.playing_example H) as G.
    cbv zeta in G. destruct G as (_ & _ & G).
    destruct (G ltac:(lia)) as (_ & G2).
    destruct (G2 Hs Hb) as (_ & _ & G3).
    exact (proj1 (G3 Hv)).
Defined.

(** Two audio events on a fresh manager: one notification. *)
Lemma mode_change_edge_triggered_witness :
  Manager.conversationMode Manager.example_manager = Manager.Listening /\
  Manager.js_le (Manager.lastInterruptTime Manager.example_manager) 1%Z
    = true /\
  Manager.js_le (Manager.lastInterruptTime Manager.example_manager) 2%Z
    = true /\
  Manager.mode_changes
    (snd (Manager.run Manager.example_atob Manager.example_btoa
            [Manager.WsMessage (Manager.Audio 1%Z "AAAA"%string);
             Manager.WsMessage (Manager.Audio 2%Z "AAAA"%string)]
            Manager.example_manager)) = [Manager.Speaking].
Proof.
  split; [reflexivity | split; [reflexivity | split; [reflexivity |]]].
  exact (proj2 (proj2
    (@mode_change_edge_triggered Manager.example_atob
       Manager.example_btoa Manager.example_manager Manager.Speaking
       1%Z 2%Z "AAAA"%string "AAAA"%string)) eq_refl eq_refl eq_refl).
Defined.

(** Halving the volume while speaking: the gain follows at the next
    accepted chunk. *)
Lemma setVolume_configured_gain_witness :
  Manager.js_le (Manager.lastInterruptTime Manager.example_speaking) 2%Z
    = true /\
  Manager.has_onAudioData (Manager.settings Manager.example_speaking)
    = true /\
  Manager.base64ToArrayBuffer Manager.example_atob "AAAA"%string
    = Some [65; 65; 65; 65]%Z /\
  Manager.gainValue
    (fst (Manager.step Manager.example_atob Manager.example_btoa
            (Manager.SetVolume (1 # 2)) Manager.example_speaking))
    = Manager.gainValue Manager.example_speaking /\
  Manager.gainValue
    (fst (Manager.step Manager.example_atob Manager.example_btoa
            (Manager.WsMessage (Manager.Audio 2%Z "AAAA"%string))
            (fst (Manager.step Manager.example_atob Manager.example_btoa
                    (Manager.SetVolume (1 # 2)) Manager.example_speaking))))
    = (1 # 2)%Q.
Proof.
  split; [reflexivity | split; [reflexivity | split; [reflexivity |]]].
  destruct (@setVolume_configured_gain Manager.example_atob
              Manager.example_btoa Manager.example_speaking (1 # 2)%Q
              2%Z "AAAA"%string [65; 65; 65; 65]%Z
              eq_refl eq_refl eq_refl) as (_ & G1 & G2 & _).
  split; [exact G1 | exact G2].
Defined.

(** Interruption ids 2 then 5: the value rises from 2 to 5. *)
Lemma lastInterruptTime_monotone_witness :
  Manager.interrupt_ids_ascend 0
    ([Manager.WsMessage (Manager.Interruption (Some (Some 2%Z)))]
     ++ Manager.WsMessage (Manager.Interruption (Some (Some 5%Z)))
     :: [Manager.WsMessage (Manager.Ping 1%Z)]) /\
  Manager.lastInterruptTime
    (fst (Manager.step Manager.example_atob Manager.example_btoa
            (Manager.WsMessage (Manager.Interruption (Some (Some 5%Z))))
            (fst (Manager.run Manager.example_atob Manager.example_btoa
                    [Manager.WsMessage
                       (Manager.Interruption (Some (Some 2%Z)))]
                    (fst (Manager.constructor Manager.example_config
                            "abc"%string))))))
    = Some 5%Z.
Proof.
  assert (H : Manager.interrupt_ids_ascend 0
    ([Manager.WsMessage (Manager.Interruption (Some (Some 2%Z)))]
     ++ Manager.WsMessage (Manager.Interruption (Some (Some 5%Z)))
     :: [Manager.WsMessage (Manager.Ping 1%Z)]))
    by (simpl; lia).
  split; [exact H |].
  exact (proj1 (proj2
    (@lastInterruptTime_monotone Manager.example_atob
       Manager.example_btoa Manager.example_config "abc"%string _ _ _ H))
    5%Z eq_refl).
Defined.


(** ** Start-up *)

Section StartSessionFacts.

Import Manager.

Variable error : Type.
Variable config : ConversationConfig.

Local Abbreviation startSession := (Manager.startSession config).

(** A successful start opens each resource once and closes none. *)
Lemma startSession_success (c : creation error) :
  first_throw c = None ->
  (exists m, snd (startSession c) = Ok m) /\
  opened (fst (startSession c)) = [Microphone; WebSocket; OutputDevice] /\
  closed (fst (startSession c)) = [] /\
  statuses (fst (startSession c)) = [Connecting; Connected].
Proof.
  unfold first_throw, Manager.startSession.
  destruct (AudioInputHandler_create c) as [ai | e1]; [| discriminate].
  destruct (WebSocketHandler_create c) as [ws | e2]; [| discriminate].
  destruct (AudioOutputHandler_create c (Signaling.sampleRate ws))
    as [ao | e3]; [| discriminate].
  intros _. simpl. split; [eexists; reflexivity |]. repeat split.
Qed.


End StartSessionFacts.


(** ** The hook *)

Section HookFacts.

Import Hook.

Variable error : Type.

(** The promise of a successful start resolves to its session. *)
Lemma settlement_success (v : version) (p : promise_id)
    (env : Manager.creation error) :
  Manager.first_throw env = None -> settlement v p env = Manager.Ok p.
Proof.
  intros H.
  destruct (startSession_success (mergedConfig v) env H) as ([m Hm] & _).
  unfold settlement. rewrite Hm. reflexivity.
Qed.

(** C5: two calls of the hook's [startSession], the second made while
    the first is pending or while its session is active.
    [Conversation.startSession] is invoked once,
    so each underlying resource (microphone, websocket, output device) is
    opened exactly once, and in the typed hook two calls made while the
    first is pending both return the same conversation object.  Where a
    call returns through [getId()], which the conversation manager does
    not have, it rejects with a TypeError instead of returning the
    session: the second call in the typed hook when the session is
    active, and every call in the untyped hook. *)
Theorem startSession_getId_rejects
    (c1 c2 : call) (env1 env2 : Manager.creation error) :
  c1 <> c2 -> Manager.first_throw env1 = None ->
  (forall v,
     let pending :=
       run v [StartSession c1 env1; StartSession c2 env2; Settle 0%nat]
         initial in
     let active :=
       run v [StartSession c1 env1; Settle 0%nat; StartSession c2 env2]
         initial in
     invoked pending = [env1] /\ invoked active = [env1] /\
     Manager.opened (effects v pending) =
       [Manager.Microphone; Manager.WebSocket; Manager.OutputDevice] /\
     Manager.opened (effects v active) =
       [Manager.Microphone; Manager.WebSocket; Manager.OutputDevice]) /\
  (let h := run Typed
              [StartSession c1 env1; StartSession c2 env2; Settle 0%nat]
              initial in
   outcome_of c1 h = Some (Returned 0%nat) /\
   outcome_of c2 h = Some (Returned 0%nat)) /\
  (let h := run Typed
              [StartSession c1 env1; Settle 0%nat; StartSession c2 env2]
              initial in
   outcome_of c1 h = Some (Returned 0%nat) /\
   outcome_of c2 h = Some RejectedNotAFunction) /\
  (let h := run Untyped
              [StartSession c1 env1; StartSession c2 env2; Settle 0%nat]
              initial in
   outcome_of c1 h = Some RejectedNotAFunction /\
   outcome_of c2 h = Some RejectedNotAFunction) /\
  (let h := run Untyped
              [StartSession c1 env1; Settle 0%nat; StartSession c2 env2]
              initial in
   outcome_of c1 h = Some RejectedNotAFunction /\
   outcome_of c2 h = Some RejectedNotAFunction).
Proof.
  intros Hne Hok.
  assert (E12 : Nat.eqb c1 c2 = false) by (apply Nat.eqb_neq; exact Hne).
  assert (E11 : Nat.eqb c1 c1 = true) by apply Nat.eqb_refl.
  assert (E22 : Nat.eqb c2 c2 = true) by apply Nat.eqb_refl.
  pose proof (fun v => settlement_success v 0%nat env1 Hok) as Hs.
  split.
  - intros v. cbv zeta.
    destruct (startSession_success (mergedConfig v) env1 Hok)
      as (_ & Hopen & _).
    unfold run, effects. simpl fold_left.
    unfold settle. simpl. rewrite Hs. simpl.
    rewrite app_nil_r, Hopen. repeat split.
  - repeat split; cbv zeta; unfold run, outcome_of; simpl fold_left;
      unfold settle; simpl; rewrite Hs; simpl;
      rewrite ?E11, ?E12, ?E22; reflexivity.
Qed.

End HookFacts.

(** Calls 1 and 2 of the typed hook in a world where starting a session
    works: made once the session is active, call 2 rejects. *)
Lemma startSession_getId_rejects_witness :
  1%nat <> 2%nat /\
  Manager.first_throw Hook.working = None /\
  Hook.outcome_of 1%nat
    (Hook.run Hook.Typed Hook.second_while_active Hook.initial)
    = Some (Hook.Returned 0%nat) /\
  Hook.outcome_of 2%nat
    (Hook.run Hook.Typed Hook.second_while_active Hook.initial)
    = Some Hook.RejectedNotAFunction.
Proof.
  assert (H : 1%nat <> 2%nat) by discriminate.
  assert (W : Manager.first_throw Hook.working = None) by reflexivity.
  split; [exact H | split; [exact W |]].
  destruct (@startSession_getId_rejects string 1%nat 2%nat
              Hook.working Hook.working H W) as (_ & _ & T & _).
  exact T.
Defined.

(* ===================================================================== *)
(** * Further properties of the code                                      *)
(* ===================================================================== *)

(** ** Sample conversion and byte views *)

Section ConversionFacts.

Import Pcm.
Local Open Scope Q_scope.

Lemma to_int16_range (x : Q) : (-32768 <= to_int16 x <= 32767)%Z.
Proof.
  unfold to_int16. cbv zeta.
  pose proof (Z.mod_pos_bound (trunc x) 65536 ltac:(lia)) as B.
  destruct (Z.leb_spec 32768 (trunc x mod 65536)); lia.
Qed.

(** X1: Whatever number the capture worklet is given, the PCM value it stores
    lies in the 16-bit range, and samples at or beyond full scale saturate
    at 32767 and -32768: the conversion never wraps around. *)
Theorem encode_sample_saturates (x : Q) :
  (-32768 <= encode_sample x <= 32767)%Z /\
  (1 <= x -> encode_sample x = 32767%Z) /\
  (x <= -1 -> encode_sample x = (-32768)%Z).
Proof.
  split; [apply to_int16_range | split].
  - intros H. unfold encode_sample, math_min. cbv zeta.
    apply Qle_bool_iff in H. rewrite H. reflexivity.
  - intros H. unfold encode_sample, math_min, math_max. cbv zeta.
    assert (E1 : Qle_bool 1 x = false).
    { destruct (Qle_bool 1 x) eqn:E; [| reflexivity].
      apply Qle_bool_iff in E. exfalso.
      apply (Qle_not_lt _ _ (Qle_trans _ _ _ E H)). reflexivity. }
    rewrite E1.
    destruct (Qle_bool (-1) x) eqn:E2; [| reflexivity].
    apply Qle_bool_iff in E2.
    destruct x as [n d]. unfold Qle in H, E2. simpl in H, E2.
    assert (Hn : n = Z.neg d) by lia. subst n.
    unfold Qlt_bool.
    assert (E0 : Qle_bool 0 (Z.neg d # d) = false).
    { destruct (Qle_bool 0 (Z.neg d # d)) eqn:E; [| reflexivity].
      apply Qle_bool_iff in E. unfold Qle in E. simpl in E. lia. }
    rewrite E0. simpl negb. cbv iota.
    destruct (@trunc_neg (Z.neg d) d 32768 ltac:(lia) ltac:(lia)) as [Ht _].
    cbv zeta in Ht. change (inject_Z 32768) with 32768 in Ht.
    pose proof (@to_int16_small ((Z.neg d # d) * 32768)) as Hs.
    remember (trunc ((Z.neg d # d) * 32768)) as t eqn:Et. clear Et.
    assert (t = (-32768)%Z) by nia. subst t.
    apply Hs. lia.
Qed.

(** Samples at twice full scale, positive and negative. *)
Lemma encode_sample_saturates_witness :
  1 <= 2 /\ -2 <= -1 /\
  encode_sample 2 = 32767%Z /\ encode_sample (-2) = (-32768)%Z.
Proof.
  assert (H1 : 1 <= 2) by (unfold Qle; simpl; lia).
  assert (H2 : -2 <= -1) by (unfold Qle; simpl; lia).
  split; [exact H1 | split; [exact H2 | split]].
  - exact (proj1 (proj2 (encode_sample_saturates 2)) H1).
  - exact (proj2 (proj2 (encode_sample_saturates (-2))) H2).
Defined.

Lemma signed16_bytes (v : Z) :
  (-32768 <= v <= 32767)%Z ->
  Playback.signed16 (v mod 256 + 256 * ((v / 256) mod 256)) = v.
Proof.
  intros H. rewrite <- (Z.rem_mul_r v 256 256) by lia.
  change (256 * 256)%Z with 65536%Z.
  unfold Playback.signed16. cbv zeta.
  rewrite Z.mod_mod by lia.
  destruct (Z_lt_le_dec v 0) as [Hneg | Hpos].
  - replace (v mod 65536)%Z with (v + 65536)%Z
      by (apply Z.mod_unique with (q := (-1)%Z); lia).
    destruct (Z.leb_spec 32768 (v + 65536)); lia.
  - rewrite Z.mod_small by lia.
    destruct (Z.leb_spec 32768 v); lia.
Qed.

(** X2: The bytes behind a chunk of 16-bit samples, viewed again as an
    [Int16Array] by the playback worklet, give the samples back. *)
Theorem int16_view_of_buffer (pcm16Data : list Z) :
  Forall (fun v => (-32768 <= v <= 32767)%Z) pcm16Data ->
  Playback.int16_view (Manager.buffer_of_int16 pcm16Data) = Some pcm16Data.
Proof.
  induction 1 as [| v vs Hv _ IH]; [reflexivity |].
  unfold Manager.buffer_of_int16 in *. simpl flat_map. simpl app.
  cbn [Playback.int16_view]. rewrite IH. simpl.
  rewrite signed16_bytes by exact Hv. reflexivity.
Qed.

(** A chunk with both extreme values. *)
Lemma int16_view_of_buffer_witness :
  Forall (fun v => (-32768 <= v <= 32767)%Z) [-32768; -1; 0; 32767]%Z /\
  Playback.int16_view (Manager.buffer_of_int16 [-32768; -1; 0; 32767]%Z)
    = Some [-32768; -1; 0; 32767]%Z.
Proof.
  assert (H : Forall (fun v => (-32768 <= v <= 32767)%Z)
                [-32768; -1; 0; 32767]%Z)
    by (repeat constructor; lia).
  split; [exact H | exact (int16_view_of_buffer H)].
Defined.

(** A view exists exactly for an even number of bytes, and has half as
    many elements. *)
Lemma int16_view_length (bytes : list Z) :
  match Playback.int16_view bytes with
  | Some chunk => List.length bytes = (2 * List.length chunk)%nat
  | None => Nat.odd (List.length bytes) = true
  end.
Proof.
  assert (G : forall n bs, (List.length bs <= n)%nat ->
    match Playback.int16_view bs with
    | Some chunk => List.length bs = (2 * List.length chunk)%nat
    | None => Nat.odd (List.length bs) = true
    end).
  { induction n as [| n IH]; intros bs Hn.
    - destruct bs; [reflexivity | simpl in Hn; lia].
    - destruct bs as [| lo [| hi rest]]; [reflexivity | reflexivity |].
      cbn [Playback.int16_view].
      specialize (IH rest ltac:(simpl in Hn; lia)).
      destruct (Playback.int16_view rest) as [chunk |]; simpl option_map.
      + simpl. simpl in IH. lia.
      + change (List.length (lo :: hi :: rest)) with (S (S (List.length rest))).
        rewrite Nat.odd_succ_succ. exact IH. }
  apply (G (List.length bytes)). lia.
Qed.

Section Base64.

Variable atob : string -> option string.
Variable btoa : string -> string.
Variable accepts_arguments : nat -> bool.

Lemma bytes_of_string_of_bytes (bytes : list Z) :
  Forall (fun b => (0 <= b < 256)%Z) bytes ->
  Manager.bytes_of_string (Manager.string_of_bytes bytes) = bytes.
Proof.
  intros H. unfold Manager.bytes_of_string, Manager.string_of_bytes.
  rewrite list_ascii_of_string_of_list_ascii, map_map.
  induction H as [| b bs Hb _ IH]; [reflexivity |].
  simpl. rewrite IH. f_equal.
  rewrite nat_ascii_embedding by lia. lia.
Qed.

(** X3: When the platform's [atob] undoes its [btoa],
    [base64ToArrayBuffer] undoes [arrayBufferToBase64] on every buffer of
    bytes that the engine can spread into one call of
    [String.fromCharCode]; on a longer buffer [arrayBufferToBase64]
    throws. *)
Theorem base64_roundtrip (buffer : list Z) :
  (forall s, atob (btoa s) = Some s) ->
  Forall (fun b => (0 <= b < 256)%Z) buffer ->
  (accepts_arguments (List.length buffer) = true ->
   Codec.there_and_back atob btoa accepts_arguments buffer = Some buffer) /\
  (accepts_arguments (List.length buffer) = false ->
   Codec.arrayBufferToBase64 btoa accepts_arguments buffer = None).
Proof.
  intros Hinv Hb.
  unfold Codec.there_and_back, Codec.arrayBufferToBase64.
  split; intros E; rewrite E; [| reflexivity].
  unfold Manager.base64ToArrayBuffer, Manager.arrayBufferToBase64.
  rewrite Hinv. cbn [option_map]. f_equal.
  apply bytes_of_string_of_bytes. exact Hb.
Qed.

End Base64.

(** The bytes 0, 127, 128 and 255 through the stand-in codec. *)
Lemma base64_roundtrip_witness :
  (forall s, Manager.example_atob (Manager.example_btoa s) = Some s) /\
  Forall (fun b => (0 <= b < 256)%Z) [0; 127; 128; 255]%Z /\
  Codec.example_limit (List.length [0; 127; 128; 255]%Z) = true /\
  Codec.there_and_back Manager.example_atob Manager.example_btoa
    Codec.example_limit [0; 127; 128; 255]%Z
    = Some [0; 127; 128; 255]%Z.
Proof.
  assert (H1 : forall s,
             Manager.example_atob (Manager.example_btoa s) = Some s)
    by (intros s; reflexivity).
  assert (H2 : Forall (fun b => (0 <= b < 256)%Z) [0; 127; 128; 255]%Z)
    by (repeat constructor; lia).
  split; [exact H1 | split; [exact H2 | split; [reflexivity |]]].
  exact (proj1 (@base64_roundtrip Manager.example_atob Manager.example_btoa
                  Codec.example_limit _ H1 H2) eq_refl).
Defined.

End ConversionFacts.

(** ** Capture worklet *)

Section CaptureFacts.

Import Capture.
Local Open Scope list_scope.

Variable number : Type.
Variable calculateMaxVolume : list Q -> number.

Local Abbreviation process := (@Capture.process number calculateMaxVolume).
Local Abbreviation run := (@Capture.run number calculateMaxVolume).

Lemma process_keeps_settings (b : list (list Q)) (p : processor) :
  resampler (fst (process b p)) = resampler p /\
  bufferThreshold (fst (process b p)) = bufferThreshold p.
Proof.
  unfold Capture.process. destruct b as [| ch rest]; [split; reflexivity |].
  cbv zeta. cbn [audioBuffer bufferThreshold].
  destruct (Z.leb _ _); split; reflexivity.
Qed.

Lemma heard_same_resampler (p q : processor) (b : list (list Q)) :
  resampler p = resampler q -> heard p b = heard q b.
Proof. intros H. unfold heard. rewrite H. reflexivity. Qed.

(** One call of [process] neither loses nor reorders a sample. *)
Lemma process_conserves (b : list (list Q)) (p : processor) :
  match snd (process b p) with
  | Some m => fst m
  | None => []
  end ++ Pcm.encode_buffer (audioBuffer (fst (process b p)))
  = Pcm.encode_buffer (audioBuffer p ++ heard p b).
Proof.
  unfold Capture.process. destruct b as [| ch rest].
  - simpl. rewrite app_nil_r. reflexivity.
  - cbv zeta. cbn [audioBuffer bufferThreshold].
    destruct (Z.leb _ _); simpl; [apply app_nil_r | reflexivity].
Qed.

(** X4: The capture worklet neither loses, duplicates nor reorders samples:
    the PCM chunks it has posted, followed by the conversion of what is
    still buffered, are the conversion of everything it was handed (the
    first channel of each block, resampled when a resampler is set). *)
Theorem capture_conserves_samples
    (blocks : list (list (list Q))) (p : processor) :
  flat_map fst (snd (run blocks p))
    ++ Pcm.encode_buffer (audioBuffer (fst (run blocks p)))
  = Pcm.encode_buffer (audioBuffer p ++ flat_map (heard p) blocks).
Proof.
  revert p. induction blocks as [| b rest IH]; intros p.
  - simpl. rewrite app_nil_r. reflexivity.
  - simpl Capture.run.
    pose proof (process_conserves b p) as Hb.
    pose proof (process_keeps_settings b p) as [Hr _].
    destruct (process b p) as [p1 m]. cbn [fst snd] in Hb, Hr.
    specialize (IH p1).
    destruct (run rest p1) as [p2 ms]. cbn [fst snd] in IH |- *.
    assert (Hh : flat_map (heard p1) rest = flat_map (heard p) rest).
    { clear -Hr. induction rest as [| x xs IHx]; [reflexivity |].
      simpl. rewrite IHx, (heard_same_resampler p1 p x Hr). reflexivity. }
    rewrite Hh in IH.
    assert (Hrhs :
      Pcm.encode_buffer (audioBuffer p ++ flat_map (heard p) (b :: rest))
      = match m with Some x => fst x | None => [] end
        ++ Pcm.encode_buffer (audioBuffer p1 ++ flat_map (heard p) rest)).
    { simpl flat_map. rewrite app_assoc.
      unfold Pcm.encode_buffer in *.
      rewrite map_app, <- Hb, map_app, app_assoc. reflexivity. }
    rewrite Hrhs, <- IH.
    destruct m as [x |]; simpl; [rewrite app_assoc |]; reflexivity.
Qed.

(** X5: With a positive threshold and less than a threshold of samples
    buffered, as after construction, every chunk the worklet posts holds at
    least a threshold of samples (4000, a quarter of a second) and what
    stays buffered is always below the threshold. *)
Theorem capture_chunk_sizes
    (blocks : list (list (list Q))) (p : processor) :
  (0 < bufferThreshold p)%Z ->
  (Z.of_nat (List.length (audioBuffer p)) < bufferThreshold p)%Z ->
  Forall (fun m : message number =>
            (bufferThreshold p <= Z.of_nat (List.length (fst m)))%Z)
         (snd (run blocks p)) /\
  (Z.of_nat (List.length (audioBuffer (fst (run blocks p))))
     < bufferThreshold p)%Z.
Proof.
  revert p. induction blocks as [| b rest IH]; intros p Hpos Hlen.
  - simpl. split; [constructor | exact Hlen].
  - simpl Capture.run.
    assert (Hstep :
      bufferThreshold (fst (process b p)) = bufferThreshold p /\
      (Z.of_nat (List.length (audioBuffer (fst (process b p))))
         < bufferThreshold p)%Z /\
      match snd (process b p) with
      | Some m => (bufferThreshold p <= Z.of_nat (List.length (fst m)))%Z
      | None => True
      end).
    { unfold Capture.process. destruct b as [| ch more].
      - simpl. repeat split; assumption.
      - cbv zeta. cbn [audioBuffer bufferThreshold].
        destruct (Z.leb_spec (bufferThreshold p)
                    (Z.of_nat (List.length
                       (audioBuffer p ++ heard p (ch :: more)))))
          as [Hge | Hlt]; simpl.
        + repeat split; [exact Hpos |].
          unfold Pcm.encode_buffer. rewrite length_map. exact Hge.
        + repeat split. exact Hlt. }
    destruct (process b p) as [p1 m]. cbn [fst snd] in Hstep.
    destruct Hstep as (Ht & Hl & Hm).
    specialize (IH p1 ltac:(rewrite Ht; exact Hpos)
                      ltac:(rewrite Ht; exact Hl)).
    destruct (run rest p1) as [p2 ms]. cbn [fst snd] in IH |- *.
    rewrite Ht in IH. destruct IH as [IHf IHl].
    split; [| exact IHl].
    destruct m as [x |]; [constructor; assumption | exact IHf].
Qed.

End CaptureFacts.

(** The freshly constructed worklet on a full block and a short one. *)
Lemma capture_chunk_sizes_witness :
  (0 < Capture.bufferThreshold Capture.initial)%Z /\
  (Z.of_nat (List.length (Capture.audioBuffer Capture.initial))
     < Capture.bufferThreshold Capture.initial)%Z /\
  Forall (fun m : Capture.message nat =>
            (Capture.bufferThreshold Capture.initial
               <= Z.of_nat (List.length (fst m)))%Z)
    (snd (Capture.run Capture.example_volume Capture.example_blocks
            Capture.initial)).
Proof.
  assert (H1 : (0 < Capture.bufferThreshold Capture.initial)%Z)
    by reflexivity.
  assert (H2 : (Z.of_nat (List.length (Capture.audioBuffer Capture.initial))
                  < Capture.bufferThreshold Capture.initial)%Z)
    by reflexivity.
  split; [exact H1 | split; [exact H2 |]].
  exact (proj1 (@capture_chunk_sizes nat Capture.example_volume
                  Capture.example_blocks Capture.initial H1 H2)).
Defined.

(** ** Playback worklet, continued *)

Section PlaybackTraceFacts.

Import Playback PlaybackTrace.
Local Open Scope list_scope.

Local Abbreviation played :=
  (map (fun v => Num (Pcm.decode_sample v))).

(** One loop iteration on a well-formed processor with samples left. *)
Lemma iteration_plays_head (p : processor) (v : Z) (rest : list Z) :
  well_formed p -> pending_samples p = v :: rest ->
  exists p1 chunk,
    load_chunk p = Some (p1, chunk) /\
    snd (emit_sample p1 chunk) = Num (Pcm.decode_sample v) /\
    pending_samples (fst (emit_sample p1 chunk)) = rest /\
    well_formed (fst (emit_sample p1 chunk)).
Proof.
  intros [Hpos Hq] Hpend. unfold pending_samples, load_chunk in *.
  destruct (currentAudioBuffer p) as [chunk |] eqn:Ec.
  - (* a chunk is in progress *)
    exists p, chunk. split; [reflexivity |].
    destruct (nth_error chunk (currentPosition p)) as [x |] eqn:En;
      [| apply nth_error_None in En; lia].
    pose proof (nth_error_split chunk (currentPosition p) En)
      as (l1 & l2 & Hc & Hl).
    assert (Hs : skipn (currentPosition p) chunk = x :: l2).
    { rewrite Hc, <- Hl, skipn_app, skipn_all, Nat.sub_diag. reflexivity. }
    assert (Hs' : skipn (S (currentPosition p)) chunk = l2).
    { rewrite Hc, <- Hl.
      change (l1 ++ x :: l2) with (l1 ++ [x] ++ l2).
      rewrite app_assoc.
      replace (S (List.length l1)) with (List.length (l1 ++ [x]))
        by (rewrite length_app; simpl; lia).
      rewrite skipn_app, skipn_all, Nat.sub_diag. reflexivity. }
    rewrite Hs in Hpend. simpl in Hpend. injection Hpend as -> Hrest.
    unfold emit_sample. rewrite En. cbn [fst snd].
    unfold well_formed. cbn [currentAudioBuffer currentPosition audioBuffers].
    rewrite Ec.
    destruct (Nat.leb_spec (List.length chunk) (S (currentPosition p)))
      as [Hend | Hmore].
    + split; [reflexivity | split; [| split; [exact I | exact Hq]]].
      rewrite <- Hrest.
      assert (l2 = []) as ->.
      { rewrite <- Hs'. apply skipn_all2. exact Hend. }
      reflexivity.
    + split; [reflexivity | split; [| split; [exact Hmore | exact Hq]]].
      rewrite Hs'. exact Hrest.
  - (* the next chunk is taken from the queue *)
    destruct (audioBuffers p) as [| chunk queue] eqn:Eq;
      [discriminate Hpend |].
    inversion Hq as [| ? ? Hne Hq']; subst.
    destruct chunk as [| x l2]; [contradiction |].
    simpl in Hpend. injection Hpend as -> Hrest.
    eexists. exists (v :: l2). split; [reflexivity |].
    unfold emit_sample. cbn [fst snd currentPosition nth_error].
    unfold well_formed. cbn [currentAudioBuffer currentPosition audioBuffers].
    destruct l2 as [| y l3]; simpl.
    + repeat split; assumption.
    + repeat split; [exact Hrest | lia | exact Hq'].
Qed.

(** X6: The playback worklet plays its chunks first in, first out: on a
    processor whose position lies inside its chunk and whose queued chunks
    are not empty, a pull of [n] samples writes the first [n] pending
    samples, each divided by 32768, keeps the rest pending in order, and
    reports finished exactly when fewer than [n] samples were pending. *)
Theorem playback_first_in_first_out (n : nat) (p : processor) :
  well_formed p ->
  let '(p', written, finished) := processAudioOutput n p in
  written = played (firstn n (pending_samples p)) /\
  pending_samples p' = skipn n (pending_samples p) /\
  finished = (List.length (pending_samples p) <? n)%nat /\
  well_formed p'.
Proof.
  revert p. induction n as [| n IH]; intros p Hwf.
  - simpl. split; [| split; [| split]]; [reflexivity .. | exact Hwf].
  - cbn [processAudioOutput].
    destruct (pending_samples p) as [| v rest] eqn:Hpend.
    + (* nothing left: the loop breaks *)
      assert (Hload : load_chunk p = None).
      { unfold pending_samples, load_chunk in *.
        destruct Hwf as [Hpos Hq].
        destruct (currentAudioBuffer p) as [chunk |].
        - apply app_eq_nil in Hpend as [Hs _].
          assert (List.length (skipn (currentPosition p) chunk) = 0%nat)
            as Hl by (rewrite Hs; reflexivity).
          rewrite length_skipn in Hl. lia.
        - destruct (audioBuffers p) as [| chunk queue]; [reflexivity |].
          inversion Hq as [| ? ? Hne _]; subst.
          destruct chunk; [contradiction | discriminate Hpend]. }
      rewrite Hload, Hpend.
      split; [| split; [| split]]; [reflexivity .. | exact Hwf].
    + destruct (@iteration_plays_head p v rest Hwf Hpend)
        as (p1 & chunk & Hload & Hout & Hrest & Hwf2).
      rewrite Hload.
      destruct (emit_sample p1 chunk) as [p2 x]. cbn [fst snd] in *.
      specialize (IH p2 Hwf2).
      destruct (processAudioOutput n p2) as [[p3 xs] fin].
      destruct IH as (Hw & Hp & Hf & Hwf3).
      rewrite Hrest in Hw, Hp, Hf.
      split; [| split; [| split]]; [| exact Hp | exact Hf | exact Hwf3].
      simpl. rewrite Hout, Hw. reflexivity.
Qed.

End PlaybackTraceFacts.

Section PlaybackEdgeFacts.

Import Playback PlaybackTrace.
Local Open Scope list_scope.

(** The example processor plays the rest of its chunk, then the queue. *)
Lemma playback_first_in_first_out_witness :
  well_formed playing_example /\
  snd (fst (processAudioOutput 4 playing_example))
    = map (fun v => Num (Pcm.decode_sample v)) [2; 3; 7; 8]%Z /\
  snd (processAudioOutput 4 playing_example) = false.
Proof.
  assert (H : well_formed playing_example).
  { split; [simpl; lia |]. repeat constructor; discriminate. }
  split; [exact H |].
  pose proof (@playback_first_in_first_out 4 playing_example H) as G.
  destruct (processAudioOutput 4 playing_example) as [[p' written] finished].
  destruct G as (Hw & _ & Hf & _).
  split; [exact Hw | exact Hf].
Defined.

(** X7: An empty buffer posted to an idle worklet is enqueued as an empty
    chunk, and the next pull then writes one [NaN] sample (it reads past
    the end of that chunk) instead of leaving the output silent. *)
Theorem empty_chunk_plays_nan (n : nat) (p : processor) :
  currentAudioBuffer p = None -> audioBuffers p = [] ->
  snd (fst (processAudioOutput (S n) (handleNewBuffer [] p))) = [NaN] /\
  snd (fst (processAudioOutput (S n) p)) = [].
Proof.
  intros Hc Hq. split.
  - cbn [processAudioOutput]. unfold handleNewBuffer, load_chunk. simpl.
    rewrite Hc, Hq. simpl.
    destruct n as [| n]; reflexivity.
  - cbn [processAudioOutput]. unfold load_chunk. rewrite Hc, Hq.
    reflexivity.
Qed.

(** The freshly constructed worklet. *)
Lemma empty_chunk_plays_nan_witness :
  currentAudioBuffer initial = None /\ audioBuffers initial = [] /\
  snd (fst (processAudioOutput 128 (handleNewBuffer [] initial))) = [NaN].
Proof.
  split; [reflexivity | split; [reflexivity |]].
  exact (proj1 (@empty_chunk_plays_nan 127 initial eq_refl eq_refl)).
Defined.

(** X8: A buffer with an odd number of bytes is not enqueued (the view over it
    cannot be built), one with an even number is enqueued as a chunk of
    half as many samples; the interrupted flag is cleared in both cases. *)
Theorem handleNewBuffer_by_parity (buffer : list Z) (p : processor) :
  isInterrupted (handleNewBuffer buffer p) = false /\
  (Nat.odd (List.length buffer) = true ->
   audioBuffers (handleNewBuffer buffer p) = audioBuffers p) /\
  (Nat.even (List.length buffer) = true ->
   exists chunk,
     audioBuffers (handleNewBuffer buffer p) = audioBuffers p ++ [chunk] /\
     List.length buffer = (2 * List.length chunk)%nat).
Proof.
  pose proof (int16_view_length buffer) as H.
  unfold handleNewBuffer.
  destruct (int16_view buffer) as [chunk |]; cbn [isInterrupted audioBuffers].
  - split; [reflexivity | split].
    + intros Ho. rewrite H in Ho.
      rewrite Nat.odd_mul in Ho. discriminate Ho.
    + intros _. exists chunk. split; [reflexivity | exact H].
  - split; [reflexivity | split; [reflexivity |]].
    intros He. rewrite <- Nat.negb_odd, H in He. discriminate He.
Qed.

(** Three bytes and four bytes for the same processor. *)
Lemma handleNewBuffer_by_parity_witness :
  Nat.odd (List.length [1; 2; 3]%Z) = true /\
  Nat.even (List.length [1; 2; 3; 4]%Z) = true /\
  audioBuffers (handleNewBuffer [1; 2; 3]%Z playing_example)
    = audioBuffers playing_example /\
  exists chunk,
    audioBuffers (handleNewBuffer [1; 2; 3; 4]%Z playing_example)
      = audioBuffers playing_example ++ [chunk] /\
    List.length [1; 2; 3; 4]%Z = (2 * List.length chunk)%nat.
Proof.
  split; [reflexivity | split; [reflexivity | split]].
  - exact (proj1 (proj2 (handleNewBuffer_by_parity [1; 2; 3]%Z
                           playing_example)) eq_refl).
  - exact (proj2 (proj2 (handleNewBuffer_by_parity [1; 2; 3; 4]%Z
                           playing_example)) eq_refl).
Defined.

Lemma processAudioOutput_isFinished (n : nat) (p : processor) :
  isFinished (fst (fst (processAudioOutput n p))) = isFinished p.
Proof.
  revert p. induction n as [| n IH]; intros p; simpl; [reflexivity |].
  unfold load_chunk.
  destruct (currentAudioBuffer p) as [chunk |] eqn:Ec.
  - unfold emit_sample.
    match goal with
    | |- context [processAudioOutput n ?q] =>
        specialize (IH q); destruct (processAudioOutput n q) as [[p3 xs] fin]
    end.
    simpl in *. exact IH.
  - destruct (audioBuffers p) as [| chunk rest]; [reflexivity |].
    unfold emit_sample.
    match goal with
    | |- context [processAudioOutput n ?q] =>
        specialize (IH q); destruct (processAudioOutput n q) as [[p3 xs] fin]
    end.
    simpl in *. exact IH.
Qed.

Lemma onmessage_isFinished (m : message) (p : processor) :
  isFinished (onmessage m p) = isFinished p.
Proof.
  destruct m as [buffer | |]; simpl.
  - unfold handleNewBuffer. destruct (int16_view buffer); reflexivity.
  - reflexivity.
  - unfold handleClearInterruption. destruct (isInterrupted p); reflexivity.
Qed.

(** X9: The worklet reports only transitions: over any run of pulls and port
    messages, each notification carries the opposite of the previous one,
    the first the opposite of the stored flag; nothing is reported twice
    in a row. *)
Theorem finished_notifications_alternate (es : list event) (p : processor) :
  alternating (isFinished p) (snd (run es p)).
Proof.
  revert p. induction es as [| e es IH]; intros p; [exact I |].
  destruct e as [n | m]; cbn [run].
  - unfold process.
    pose proof (processAudioOutput_isFinished n p) as Hf.
    destruct (processAudioOutput n p) as [[p1 written] fin]. simpl in Hf.
    destruct (Bool.eqb (isFinished p1) fin) eqn:E.
    + specialize (IH p1). destruct (run es p1) as [p2 notes].
      cbn [snd] in *. rewrite <- Hf. exact IH.
    + match goal with
      | |- context [run es ?q] =>
          specialize (IH q); destruct (run es q) as [p2 notes]
      end.
      cbn [snd isFinished] in *. split; [| exact IH].
      rewrite <- Hf. apply Bool.eqb_false_iff in E.
      destruct (isFinished p1), fin; simpl; congruence.
  - specialize (IH (onmessage m p)).
    rewrite onmessage_isFinished in IH. exact IH.
Qed.

End PlaybackEdgeFacts.

(** ** Conversation manager, continued *)

Section ManagerTraceFacts.

Import Manager Trace.
Local Open Scope Z_scope.
Local Open Scope list_scope.

Variable atob : string -> option string.
Variable btoa : string -> string.

Local Abbreviation step := (Manager.step atob btoa).
Local Abbreviation run := (Manager.run atob btoa).

Ltac unfold_handlers :=
  unfold Manager.step, handleWebSocketMessage, handleWebSocketError,
    handleWebSocketClose, handleInputAudioMessage, handleOutputAudioMessage,
    fadeTimeout, setVolume, endSession, endSession_inputClosed,
    endSession_outputClosed, handleInterruption, handleIncomingAudio,
    processIncomingAudio, handleAgentResponse, handleUserTranscript,
    handleTentativeResponse, handlePing, handleError, fadeOutAudio,
    updateConversationMode, updateConnectionStatus,
    seq, emit, modify, skip in *.

Ltac case_ifs :=
  repeat match goal with
         | |- context [if ?b then _ else _] => destruct b eqn:?
         | |- context [match base64ToArrayBuffer ?f ?s with _ => _ end] =>
             destruct (base64ToArrayBuffer f s) eqn:?
         end.

(** Runs every callback shape through the handlers. *)
Ltac by_callback i :=
  destruct i as [d | | | pcm | fin | | v | | |];
    [destruct d as [| | [[k |] |] | r | t | r | id a | id | t] | ..];
    try destruct fin;
    unfold_handlers; simpl; case_ifs; simpl.

Lemma step_pongs (i : input) (m : manager) :
  pongs (snd (step i m)) = pings [i].
Proof. by_callback i; reflexivity. Qed.

(** X10: Every ping is answered by exactly one pong carrying its event id, in
    the order of arrival, and nothing else makes the manager send a pong. *)
Theorem pongs_answer_pings (inputs : list input) (m : manager) :
  pongs (snd (run inputs m)) = pings inputs.
Proof.
  revert m. induction inputs as [| i rest IH]; intros m; [reflexivity |].
  rewrite run_cons. cbn [snd]. unfold pongs in *.
  rewrite flat_map_app. fold (pongs (snd (step i m))).
  rewrite step_pongs, IH. unfold pings. simpl. rewrite app_nil_r.
  reflexivity.
Qed.

Lemma step_messages (i : input) (m : manager) :
  messages (snd (step i m)) = utterances [i].
Proof. by_callback i; reflexivity. Qed.

(** The message callback receives exactly the agent responses (tagged ai)
    and the user transcripts (tagged user), in the order of arrival;
    tentative agent responses and every other event never reach it. *)
Theorem messages_are_utterances (inputs : list input) (m : manager) :
  messages (snd (run inputs m)) = utterances inputs.
Proof.
  revert m. induction inputs as [| i rest IH]; intros m; [reflexivity |].
  rewrite run_cons. cbn [snd]. unfold messages in *.
  rewrite flat_map_app. fold (messages (snd (step i m))).
  rewrite step_messages, IH. unfold utterances. simpl. rewrite app_nil_r.
  reflexivity.
Qed.

(** What one callback can do to the connection status. *)
Lemma step_status (i : input) (m : manager) :
  (connectionStatus (fst (step i m)) = connectionStatus m /\
   statuses (snd (step i m)) = []) \/
  (connectionStatus m = Connected /\
   connectionStatus (fst (step i m)) = Disconnecting /\
   statuses (snd (step i m)) = [Disconnecting]) \/
  (connectionStatus m <> Disconnected /\
   connectionStatus (fst (step i m)) = Disconnected /\
   statuses (snd (step i m)) = [Disconnected]).
Proof.
  destruct m as [cfg cid last md st vol gain].
  by_callback i; try (left; split; reflexivity);
    destruct st; simpl in *; try discriminate;
    try (left; split; reflexivity);
    try (right; left; repeat split; reflexivity);
    try (right; right; repeat split; try reflexivity; discriminate).
Qed.

Lemma statuses_app (a b : list effect) :
  statuses (a ++ b) = statuses a ++ statuses b.
Proof. unfold statuses. apply flat_map_app. Qed.

(** X11: The connection status is a one-way street: from connected, the
    status callback can still receive disconnecting then disconnected, or
    disconnected alone, and nothing after disconnected; no callback ever
    brings a manager back to connected or connecting. *)
Theorem status_lifecycle (inputs : list input) (m : manager) :
  lifecycle (connectionStatus m) (statuses (snd (run inputs m))).
Proof.
  revert m. induction inputs as [| i rest IH]; intros m.
  - simpl. destruct (connectionStatus m); simpl; auto.
  - rewrite run_cons. cbn [snd]. rewrite statuses_app.
    specialize (IH (fst (step i m))).
    destruct (step_status i m)
      as [(Hs & Hn) | [(Hc & Hs & Hn) | (Hd & Hs & Hn)]];
      rewrite Hn; rewrite Hs in IH; simpl app.
    + exact IH.
    + rewrite Hc. simpl in *.
      destruct IH as [-> | ->]; auto.
    + simpl in IH. rewrite IH.
      destruct (connectionStatus m); simpl; auto. contradiction.
Qed.

(** A manager that is not connected stays that way. *)
Lemma run_not_connected (inputs : list input) (m : manager) :
  connectionStatus m <> Connected ->
  connectionStatus (fst (run inputs m)) <> Connected.
Proof.
  revert m. induction inputs as [| i rest IH]; intros m H; [exact H |].
  rewrite run_cons. cbn [fst]. apply IH.
  destruct (step_status i m)
    as [(Hs & _) | [(Hc & _) | (_ & Hs & _)]];
    [rewrite Hs; exact H | contradiction | rewrite Hs; discriminate].
Qed.

(** X12: Once the status has left connected (the socket closed or failed, or
    [endSession] began), no captured audio is ever written to the socket
    again, whatever happens afterwards. *)
Theorem no_audio_sent_after_disconnect (inputs : list input) (m : manager) :
  connectionStatus m <> Connected ->
  sent_chunks (snd (run inputs m)) = [].
Proof.
  revert m. induction inputs as [| i rest IH]; intros m H; [reflexivity |].
  rewrite run_cons. cbn [snd]. rewrite sent_chunks_app.
  rewrite IH by (apply (run_not_connected [i]) in H;
                 rewrite run_cons in H; exact H).
  rewrite app_nil_r.
  destruct i; try (apply other_step_sends_no_chunk; discriminate).
  rewrite input_audio_step. cbn [snd].
  destruct (status_eqb_spec (connectionStatus m) Connected);
    [contradiction | reflexivity].
Qed.

(** X13: [endSession] acts only on a connected manager: otherwise it changes
    nothing, notifies nobody and closes nothing; so a second call right
    after a first one, whatever the state, is such a no-op. *)
Theorem endSession_only_when_connected (m : manager) :
  (connectionStatus m <> Connected -> step EndSession m = (m, [])) /\
  step EndSession (fst (step EndSession m)) = (fst (step EndSession m), []).
Proof.
  assert (G : forall m', connectionStatus m' <> Connected ->
                         step EndSession m' = (m', [])).
  { intros m' H. unfold_handlers.
    destruct (status_eqb_spec (connectionStatus m') Connected);
      [contradiction | reflexivity]. }
  split; [apply G |].
  apply G.
  destruct (status_eqb_spec (connectionStatus m) Connected) as [E | E].
  - unfold_handlers. rewrite E. simpl. discriminate.
  - rewrite (G m E). exact E.
Qed.

(** X14: On a connected manager one [endSession], run to its end, notifies
    disconnecting then disconnected, closes the websocket, the microphone
    and the output device once each, in that order, and leaves the status
    disconnected. *)
Theorem endSession_closes_everything (m : manager) :
  connectionStatus m = Connected ->
  statuses (snd (run endSession_run m)) = [Disconnecting; Disconnected] /\
  closed (snd (run endSession_run m))
    = [WebSocket; Microphone; OutputDevice] /\
  connectionStatus (fst (run endSession_run m)) = Disconnected.
Proof.
  intros H. unfold endSession_run. simpl Manager.run.
  unfold_handlers. rewrite H. simpl. repeat split.
Qed.

(** What one callback does to the stored mode and what it notifies. *)
Lemma step_mode (i : input) (m : manager) :
  conversationMode m <> Interrupted ->
  conversationMode (fst (step i m)) <> Interrupted /\
  changes (conversationMode m) (mode_changes (snd (step i m))) /\
  conversationMode (fst (step i m))
    = last (mode_changes (snd (step i m))) (conversationMode m).
Proof.
  intros H. destruct m as [cfg cid lst md st vol gain]. simpl in H.
  by_callback i;
    destruct md; simpl in *; try discriminate; try contradiction;
    repeat split; try discriminate; try reflexivity; try exact H.
Qed.

Lemma mode_changes_app (a b : list effect) :
  mode_changes (a ++ b) = mode_changes a ++ mode_changes b.
Proof. unfold mode_changes. apply flat_map_app. Qed.

Lemma last_nonempty (A : Type) (x : A) (xs : list A) (d d' : A) :
  last (x :: xs) d = last (x :: xs) d'.
Proof.
  revert x. induction xs as [| y ys IH]; intros x; [reflexivity |].
  change (last (y :: ys) d = last (y :: ys) d'). apply IH.
Qed.

Lemma changes_app (A : Type) (prev : A) (xs ys : list A) :
  changes prev xs -> changes (last xs prev) ys -> changes prev (xs ++ ys).
Proof.
  revert prev. induction xs as [| x xs IH]; intros prev Hx Hy.
  - exact Hy.
  - destruct Hx as [Hne Hx]. split; [exact Hne |].
    apply IH; [exact Hx |].
    destruct xs as [| x' xs']; [exact Hy |].
    change (last (x :: x' :: xs') prev) with (last (x' :: xs') prev) in Hy.
    rewrite (last_nonempty x' xs' x prev). exact Hy.
Qed.

(** X15: Over any run of a constructed manager the mode callback sees only
    changes: each notified mode differs from the one notified before it
    (from the stored mode at the start); and although interruptions notify
    the mode interrupted, the mode stored after a callback is never
    interrupted: it is listening or speaking. *)
Theorem mode_notifications_change (inputs : list input) (m : manager) :
  conversationMode m <> Interrupted ->
  changes (conversationMode m) (mode_changes (snd (run inputs m))) /\
  conversationMode (fst (run inputs m)) <> Interrupted.
Proof.
  revert m. induction inputs as [| i rest IH]; intros m H.
  - simpl. split; [exact I | exact H].
  - rewrite run_cons. cbn [fst snd]. rewrite mode_changes_app.
    destruct (step_mode i m H) as (Hni & Hch & Hlast).
    destruct (IH _ Hni) as [IHc IHn].
    split; [| exact IHn].
    apply changes_app; [exact Hch |]. rewrite <- Hlast. exact IHc.
Qed.

(** X16: An interruption notifies interrupted and then listening, in the same
    callback, and leaves the mode listening, whether the agent was
    speaking or not. *)
Theorem interruption_notifies_then_listens
    (interruption_event : option (option Z)) (m : manager) :
  conversationMode m <> Interrupted ->
  mode_changes (snd (step (WsMessage (Interruption interruption_event)) m))
    = [Interrupted; Listening] /\
  conversationMode
    (fst (step (WsMessage (Interruption interruption_event)) m))
    = Listening.
Proof.
  intros H. destruct m as [cfg cid lst md st vol gain]. simpl in H.
  destruct interruption_event as [[k |] |]; destruct md;
    try contradiction; split; reflexivity.
Qed.


End ManagerTraceFacts.

(** After the socket closed, captured chunks and a late session end. *)
Lemma no_audio_sent_after_disconnect_witness :
  Manager.connectionStatus
    (fst (Manager.step Manager.example_atob Manager.example_btoa
            Manager.WsClose Manager.example_manager))
    <> Manager.Connected /\
  Manager.sent_chunks
    (snd (Manager.run Manager.example_atob Manager.example_btoa
            [Manager.InputAudio [1; 2]%Z; Manager.EndSession;
             Manager.InputAudio [3]%Z]
            (fst (Manager.step Manager.example_atob Manager.example_btoa
                    Manager.WsClose Manager.example_manager)))) = [].
Proof.
  assert (H : Manager.connectionStatus
                (fst (Manager.step Manager.example_atob
                        Manager.example_btoa Manager.WsClose
                        Manager.example_manager)) <> Manager.Connected)
    by (simpl; discriminate).
  split; [exact H |].
  exact (@no_audio_sent_after_disconnect Manager.example_atob
           Manager.example_btoa _ _ H).
Defined.

(** Ending the session of the example manager. *)
Lemma endSession_closes_everything_witness :
  Manager.connectionStatus Manager.example_manager = Manager.Connected /\
  Manager.closed
    (snd (Manager.run Manager.example_atob Manager.example_btoa
            Trace.endSession_run Manager.example_manager))
    = [Manager.WebSocket; Manager.Microphone; Manager.OutputDevice].
Proof.
  split; [reflexivity |].
  exact (proj1 (proj2
    (@endSession_closes_everything Manager.example_atob
       Manager.example_btoa Manager.example_manager eq_refl))).
Defined.

(** A second [endSession] after the socket has closed. *)
Lemma endSession_only_when_connected_witness :
  Manager.connectionStatus Manager.example_interrupted = Manager.Connected /\
  Manager.connectionStatus
    (fst (Manager.step Manager.example_atob Manager.example_btoa
            Manager.WsClose Manager.example_manager))
    <> Manager.Connected /\
  snd (Manager.step Manager.example_atob Manager.example_btoa
         Manager.EndSession
         (fst (Manager.step Manager.example_atob Manager.example_btoa
                 Manager.WsClose Manager.example_manager))) = [].
Proof.
  assert (H : Manager.connectionStatus
                (fst (Manager.step Manager.example_atob
                        Manager.example_btoa Manager.WsClose
                        Manager.example_manager)) <> Manager.Connected)
    by (simpl; discriminate).
  split; [reflexivity | split; [exact H |]].
  rewrite (proj1 (@endSession_only_when_connected Manager.example_atob
                    Manager.example_btoa _) H).
  reflexivity.
Defined.

(** The example run, which contains an interruption. *)
Lemma mode_notifications_change_witness :
  Manager.conversationMode Manager.example_speaking <> Manager.Interrupted /\
  Manager.conversationMode
    (fst (Manager.run Manager.example_atob Manager.example_btoa
            Manager.example_inputs Manager.example_speaking))
    <> Manager.Interrupted.
Proof.
  assert (H : Manager.conversationMode Manager.example_speaking
              <> Manager.Interrupted) by (simpl; discriminate).
  split; [exact H |].
  exact (proj2 (@mode_notifications_change Manager.example_atob
                  Manager.example_btoa Manager.example_inputs
                  Manager.example_speaking H)).
Defined.

(** An interruption while the agent speaks. *)
Lemma interruption_notifies_then_listens_witness :
  Manager.conversationMode Manager.example_speaking <> Manager.Interrupted /\
  Manager.mode_changes
    (snd (Manager.step Manager.example_atob Manager.example_btoa
            (Manager.WsMessage (Manager.Interruption (Some (Some 5%Z))))
            Manager.example_speaking))
    = [Manager.Interrupted; Manager.Listening].
Proof.
  assert (H : Manager.conversationMode Manager.example_speaking
              <> Manager.Interrupted) by (simpl; discriminate).
  split; [exact H |].
  exact (proj1 (@interruption_notifies_then_listens Manager.example_atob
                  Manager.example_btoa (Some (Some 5%Z))
                  Manager.example_speaking H)).
Defined.


(** ** Start-up and handshake, continued *)

Section StartupFacts.

Import Manager.

Variable error : Type.
Variable config : ConversationConfig.

Local Abbreviation startSession := (Manager.startSession config).

(** X18: When the three [create] calls succeed, [startSession] notifies
    connecting, opens microphone, websocket and output device once each in
    that order, announces the connection with the conversation id of the
    handshake, notifies connected, and resolves to a manager that is
    connected, listening, at volume 1 and with lastInterruptTime 0. *)
Theorem startSession_success_trace (c : creation error) :
  first_throw c = None ->
  exists wsConnection m,
    WebSocketHandler_create c = Ok wsConnection /\
    startSession c =
      ([OnStatusChange Connecting;
        Open Microphone; Open WebSocket; Open OutputDevice;
        OnConnect (Signaling.conversationId wsConnection);
        OnStatusChange Connected], Ok m) /\
    conversationId m = Signaling.conversationId wsConnection /\
    connectionStatus m = Connected /\
    conversationMode m = Listening /\
    lastInterruptTime m = Some 0%Z /\
    audioVolume m = 1%Q.
Proof.
  unfold first_throw, Manager.startSession.
  destruct (AudioInputHandler_create c) as [ai | e1]; [| discriminate].
  destruct (WebSocketHandler_create c) as [ws | e2]; [| discriminate].
  destruct (AudioOutputHandler_create c (Signaling.sampleRate ws))
    as [ao | e3]; [| discriminate].
  intros _. exists ws. eexists. split; [reflexivity |].
  split; [reflexivity |]. repeat split.
Qed.

End StartupFacts.

(** A world in which every [create] works. *)
Lemma startSession_success_trace_witness :
  Manager.first_throw Hook.working = None /\
  Manager.opened
    (fst (Manager.startSession Manager.example_config Hook.working))
    = [Manager.Microphone; Manager.WebSocket; Manager.OutputDevice].
Proof.
  split; [reflexivity |].
  destruct (@startSession_success_trace string Manager.example_config
              Hook.working eq_refl)
    as (ws & m & _ & E & _).
  rewrite E. reflexivity.
Defined.

Section HandshakeFacts.

Import Signaling.

Variable parse_rate : string -> option Z.

(** X19: When the first frame is a handshake event carrying its metadata,
    [create] returns a handler with the conversation id and the parsed
    rate of that frame, and nothing the socket delivers afterwards, not
    even an error or a close, changes that outcome. *)
Theorem handshake_success_is_final (m : metadata)
    (rest : list socket_event) :
  create parse_rate
    (SockMessage (Parsed (Some "conversation_initiation_metadata"%string)
                         (Some m)) :: rest)
  = Created {| conversationId := conversation_id m;
               sampleRate := parse_rate (agent_output_audio_format m) |}.
Proof.
  unfold create. rewrite deliver_all_cons.
  rewrite deliver_all_settled by (simpl; discriminate). reflexivity.
Qed.

(** X20: When the first frame has the handshake type but no metadata object,
    [create] fails with the [TypeError] of reading a field of
    [undefined], whatever follows. *)
Theorem handshake_without_metadata_fails (rest : list socket_event) :
  create parse_rate
    (SockMessage (Parsed (Some "conversation_initiation_metadata"%string)
                         None) :: rest)
  = Failed TypeError.
Proof.
  unfold create. rewrite deliver_all_cons.
  rewrite deliver_all_settled by (simpl; discriminate). reflexivity.
Qed.

End HandshakeFacts.

(** ** Audio devices *)

Section DeviceFacts.

Import Devices.

Variable error : Type.

Ltac unfold_try :=
  unfold AudioInputHandler_create, AudioOutputHandler_create, run_create,
    input_try, output_try, input_catch, output_catch, bind, call, emit,
    ret, assign_audioContext, assign_audioStream,
    AudioInputHandler_close, AudioOutputHandler_close;
  cbn [getSupportedConstraints_sampleRate in_new_AudioContext
       in_createAnalyser in_addModule getUserMedia in_connect
       out_new_AudioContext out_build_graph out_addModule out_connect].

(** X21: [AudioInputHandler.create] leaves nothing half open: when it throws,
    whichever platform call failed, the audio context it had created is
    closed and the microphone stream it had acquired is stopped; when it
    returns, exactly one context and one stream are open, and [close()]
    releases both. *)
Theorem input_create_releases_on_failure
    (targetSampleRate : Z) (pl : input_platform error) :
  let '(es, r) := AudioInputHandler_create targetSampleRate pl in
  match r with
  | Manager.Throw _ => open_contexts es = 0%Z /\ open_streams es = 0%Z
  | Manager.Ok _ =>
      open_contexts es = 1%Z /\ open_streams es = 1%Z /\
      open_contexts (es ++ AudioInputHandler_close) = 0%Z /\
      open_streams (es ++ AudioInputHandler_close) = 0%Z
  end.
Proof.
  destruct pl as [c0 c1 c2 am gum cn]. unfold_try.
  destruct c0 as [[|] | ?]; destruct c1 as [[] | ?]; destruct c2 as [[] | ?];
    destruct (am LibSampleRate) as [[] | ?];
    destruct (am RawAudioProcessor) as [[] | ?];
    destruct gum as [[] | ?]; destruct cn as [[] | ?];
    cbn; repeat split.
Qed.

(** When the user refuses the microphone (or there is none),
    [AudioInputHandler.create] throws the error of [getUserMedia] itself,
    after closing the audio context; there is no stream to stop. *)
Theorem input_create_microphone_refused
    (targetSampleRate : Z) (pl : input_platform error)
    (supports : bool) (e : error) :
  getSupportedConstraints_sampleRate pl = Manager.Ok supports ->
  in_new_AudioContext pl = Manager.Ok tt ->
  in_createAnalyser pl = Manager.Ok tt ->
  (forall w, in_addModule pl w = Manager.Ok tt) ->
  getUserMedia pl = Manager.Throw e ->
  snd (AudioInputHandler_create targetSampleRate pl) = Manager.Throw e /\
  In ContextClosed (fst (AudioInputHandler_create targetSampleRate pl)) /\
  ~ In TracksStopped (fst (AudioInputHandler_create targetSampleRate pl)) /\
  ~ In StreamAcquired (fst (AudioInputHandler_create targetSampleRate pl)).
Proof.
  intros H0 H1 H2 H3 H4.
  unfold AudioInputHandler_create, run_create, input_try, input_catch,
    bind, call, emit, ret, assign_audioContext, assign_audioStream.
  rewrite H0, H1, H2, !H3, H4. destruct supports; cbn; rewrite ?H3; cbn;
    (split; [reflexivity | split; [tauto |]]);
    split; intros H; repeat (destruct H as [H | H]; try discriminate H);
    exact H.
Qed.

(** X22: [AudioOutputHandler.create] leaves nothing half open either: when it
    throws, the audio context it had created is closed; when it returns,
    exactly one context is open and [close()] closes it. *)
Theorem output_create_releases_on_failure
    (targetSampleRate : option Z) (pl : output_platform error) :
  let '(es, r) := AudioOutputHandler_create targetSampleRate pl in
  match r with
  | Manager.Throw _ => open_contexts es = 0%Z
  | Manager.Ok _ =>
      open_contexts es = 1%Z /\
      open_contexts (es ++ AudioOutputHandler_close) = 0%Z
  end.
Proof.
  destruct pl as [c0 c1 am cn]. unfold_try.
  destruct c0 as [[] | ?]; destruct c1 as [[] | ?];
    destruct (am AudioConcatProcessor) as [[] | ?];
    destruct cn as [[] | ?]; cbn; repeat split.
Qed.

End DeviceFacts.

(** The user denies the microphone. *)
Lemma input_create_microphone_refused_witness :
  Devices.getUserMedia Devices.microphone_denied
    = Manager.Throw "NotAllowedError"%string /\
  Devices.AudioInputHandler_create 16000 Devices.microphone_denied
    = ([Devices.ContextCreated None;
        Devices.ModuleAdded Devices.LibSampleRate;
        Devices.ModuleAdded Devices.RawAudioProcessor;
        Devices.ContextClosed],
       Manager.Throw "NotAllowedError"%string).
Proof.
  split; [reflexivity |].
  pose proof (@input_create_microphone_refused string 16000%Z
                Devices.microphone_denied false "NotAllowedError"%string
                eq_refl eq_refl eq_refl (fun _ => eq_refl) eq_refl) as [H _].
  rewrite (surjective_pairing (Devices.AudioInputHandler_create _ _)).
  rewrite H. reflexivity.
Defined.

(** ** The hook, continued *)

Section HookMoreFacts.

Import Hook.
Local Open Scope list_scope.

Variable error : Type.

(** The promise of a failed start rejects with what was thrown. *)
Lemma settlement_failure (v : version) (p : promise_id)
    (env : Manager.creation error) (e : error) :
  Manager.first_throw env = Some e -> settlement v p env = Manager.Throw e.
Proof.
  unfold settlement, Manager.first_throw, Manager.startSession.
  destruct (Manager.AudioInputHandler_create env) as [ai | e1].
  - destruct (Manager.WebSocketHandler_create env) as [ws | e2].
    + destruct (Manager.AudioOutputHandler_create env
                  (Signaling.sampleRate ws)) as [ao | e3];
        [discriminate |].
      intros H; injection H as <-. reflexivity.
    + intros H; injection H as <-. reflexivity.
  - intros H; injection H as <-. reflexivity.
Qed.

(** X23: When the start fails, every call that was waiting for it rejects with
    the error that was thrown, the hook forgets the attempt, and the next
    call of [startSession] starts a new one. *)
Theorem startSession_failure_allows_retry
    (v : version) (c1 c2 c3 : call)
    (env1 env2 env3 : Manager.creation error) (e : error) :
  c1 <> c2 -> Manager.first_throw env1 = Some e ->
  let h := run v [StartSession c1 env1; StartSession c2 env2; Settle 0%nat]
             initial in
  outcome_of c1 h = Some (Rejected e) /\
  outcome_of c2 h = Some (Rejected e) /\
  conversationRef h = None /\
  pendingConversationRef h = None /\
  invoked (step v (StartSession c3 env3) h) = [env1; env3] /\
  pendingConversationRef (step v (StartSession c3 env3) h) = Some 1%nat.
Proof.
  intros Hne Hfail h. subst h.
  assert (E12 : Nat.eqb c1 c2 = false) by (apply Nat.eqb_neq; exact Hne).
  assert (E11 : Nat.eqb c1 c1 = true) by apply Nat.eqb_refl.
  assert (E22 : Nat.eqb c2 c2 = true) by apply Nat.eqb_refl.
  pose proof (settlement_failure v 0%nat env1 Hfail) as Hs.
  unfold run, outcome_of. simpl fold_left. unfold settle. simpl.
  rewrite Hs. simpl. rewrite ?E11, ?E12, ?E22.
  repeat split.
Qed.

Section Coalescing.

Variable v : version.
Variable env : Manager.creation error.
Hypothesis env_works : Manager.first_throw env = None.

Local Abbreviation coalesced := (HookState.coalesced env).

Lemma resume_all (ks : list (promise_id * continuation)) (h0 : hook error) :
  invoked h0 = [env] -> suspended h0 = [] ->
  let h' := fold_left
              (fun acc pk => resume v (Manager.Ok 0%nat) (snd pk) acc)
              ks h0 in
  invoked h' = [env] /\ suspended h' = [] /\
  (conversationRef h0 = Some 0%nat -> conversationRef h' = Some 0%nat) /\
  ((exists c, In (0%nat, AwaitOwn c) ks) ->
   conversationRef h' = Some 0%nat).
Proof.
  revert h0. induction ks as [| [p k] ks IH]; intros h0 Hi Hs; cbv zeta.
  - simpl. repeat split; try assumption; [intros H; exact H | intros [c []]].
  - simpl fold_left.
    destruct k as [c | c]; simpl resume.
    + (* the owner resumes: the session is stored *)
      match goal with
      | |- context [fold_left _ ks ?q] =>
          destruct (IH q) as (I1 & I2 & I3 & I4);
            [exact Hi | exact Hs |]
      end.
      cbv zeta in *. simpl in I3.
      repeat split; try assumption; intros _; apply I3; reflexivity.
    + match goal with
      | |- context [fold_left _ ks ?q] =>
          destruct (IH q) as (I1 & I2 & I3 & I4);
            [exact Hi | exact Hs |]
      end.
      cbv zeta in *. simpl in I3.
      repeat split; try assumption.
      intros [c' [Hc | Hc]]; [discriminate Hc |].
      apply I4. exists c'. exact Hc.
Qed.

Lemma filter_all (l : list (promise_id * continuation)) :
  Forall (fun pk => fst pk = 0%nat) l ->
  filter (fun pk => Nat.eqb (fst pk) 0) l = l /\
  filter (fun pk => negb (Nat.eqb (fst pk) 0)) l = [].
Proof.
  induction 1 as [| pk l Hpk _ [IH1 IH2]]; [split; reflexivity |].
  simpl. rewrite Hpk. simpl. rewrite IH1, IH2. split; reflexivity.
Qed.

Lemma step_coalesced (e : event error) (h : hook error) :
  coalesced h -> coalesced (step v e h).
Proof.
  intros [Hi [(Hc & Hp & Hall & Hown) | (Hc & Hs)]].
  - (* the start is pending *)
    destruct e as [c env' | p]; simpl.
    + unfold call_startSession. rewrite Hc, Hp.
      split; [exact Hi | left]. simpl.
      repeat split; try assumption.
      * apply Forall_app. split; [exact Hall | repeat constructor].
      * destruct Hown as [c0 H0]. exists c0. apply in_or_app. left.
        exact H0.
    + unfold settle. rewrite Hi.
      destruct p as [| p].
      * simpl nth_error. cbv zeta.
        destruct (filter_all Hall) as [F1 F2]. rewrite F1, F2.
        rewrite (settlement_success v 0%nat env env_works).
        match goal with
        | |- coalesced (fold_left _ _ ?q) =>
            destruct (@resume_all (suspended h) q eq_refl eq_refl)
              as (I1 & I2 & _ & I4)
        end.
        cbv zeta in *. split; [exact I1 | right].
        split; [apply I4; exact Hown | exact I2].
      * destruct p; simpl; (split; [exact Hi | left; repeat split; assumption]).
  - (* the session is active *)
    destruct e as [c env' | p]; simpl.
    + unfold call_startSession. rewrite Hc.
      split; [exact Hi | right; split; assumption].
    + unfold settle. rewrite Hi, Hs.
      destruct p as [| [| p]]; simpl.
      * split; [reflexivity | right; split; [exact Hc | reflexivity]].
      * split; [exact Hi | right; split; assumption].
      * split; [exact Hi | right; split; assumption].
Qed.

Lemma run_coalesced (es : list (event error)) (h : hook error) :
  coalesced h -> coalesced (run v es h).
Proof.
  revert h. induction es as [| e es IH]; intros h H; [exact H |].
  unfold run in *. simpl. apply IH. apply step_coalesced. exact H.
Qed.

End Coalescing.

(** X24: However often the hook's [startSession] is called after a first call,
    and whenever the promise of that first start settles in between, a
    start that succeeds is the only one: [Conversation.startSession] has
    been invoked once and microphone, websocket and output device have
    been opened once each. *)
Theorem startSession_starts_once
    (v : version) (c : call) (env : Manager.creation error)
    (es : list (event error)) :
  Manager.first_throw env = None ->
  invoked (run v (StartSession c env :: es) initial) = [env] /\
  Manager.opened (effects v (run v (StartSession c env :: es) initial))
    = [Manager.Microphone; Manager.WebSocket; Manager.OutputDevice].
Proof.
  intros Hok.
  assert (H : HookState.coalesced env
                (run v (StartSession c env :: es) initial)).
  { change (run v (StartSession c env :: es) initial)
      with (run v es (step v (StartSession c env) initial)).
    apply run_coalesced; [exact Hok |].
    split; [reflexivity | left]. simpl.
    repeat split; [repeat constructor |]. exists c. left. reflexivity. }
  destruct H as [Hi _]. split; [exact Hi |].
  unfold effects. rewrite Hi. simpl. rewrite app_nil_r.
  destruct (startSession_success (mergedConfig v) env Hok)
    as (_ & Hopen & _).
  exact Hopen.
Qed.

End HookMoreFacts.

(** The output device fails for the first start. *)
Lemma startSession_failure_allows_retry_witness :
  1%nat <> 2%nat /\
  Manager.first_throw Manager.example_creation
    = Some "NotSupportedError"%string /\
  Hook.outcome_of 2%nat
    (Hook.run Hook.Typed
       [Hook.StartSession 1%nat Manager.example_creation;
        Hook.StartSession 2%nat Hook.working; Hook.Settle 0%nat]
       Hook.initial)
    = Some (Hook.Rejected "NotSupportedError"%string).
Proof.
  assert (H : 1%nat <> 2%nat) by discriminate.
  assert (F : Manager.first_throw Manager.example_creation
              = Some "NotSupportedError"%string) by reflexivity.
  split; [exact H | split; [exact F |]].
  exact (proj1 (proj2
    (@startSession_failure_allows_retry string Hook.Typed 1%nat 2%nat 3%nat
       Manager.example_creation Hook.working Hook.working
       "NotSupportedError"%string H F))).
Defined.

(** Five more calls and two settlements after the first call. *)
Lemma startSession_starts_once_witness :
  Manager.first_throw Hook.working = None /\
  Hook.invoked
    (Hook.run Hook.Untyped
       (Hook.StartSession 1%nat Hook.working
        :: [Hook.StartSession 2%nat Manager.example_creation;
            Hook.Settle 0%nat;
            Hook.StartSession 3%nat Hook.working;
            Hook.Settle 0%nat;
            Hook.StartSession 4%nat Hook.working])
       Hook.initial) = [Hook.working].
Proof.
  split; [reflexivity |].
  exact (proj1 (@startSession_starts_once string Hook.Untyped 1%nat
                  Hook.working _ eq_refl)).
Defined.

(** ** The hook's [setVolume] and [endSession] *)

Section HookApiFacts.

Import HookApi.
Local Open Scope list_scope.

Variable error : Type.

Local Abbreviation Start := (fun c env => OfHook (Hook.StartSession c env)).
Local Abbreviation Settled := (OfHook (@Hook.Settle error 0%nat)).

(** X25: [setVolume] through the hook reaches a session only if one is active
    (or, in the typed hook, being started): with neither, the call changes
    nothing.  So the component's mute-then-start leaves the session it
    starts without any [setVolume]: the session runs at its initial
    volume. *)
Theorem setVolume_before_start_is_lost
    (v : Hook.version) (volume : Q) (w : world error)
    (c : Hook.call) (env : Manager.creation error) :
  Hook.conversationRef (hook w) = None ->
  Hook.pendingConversationRef (hook w) = None ->
  Manager.first_throw env = None ->
  step v (SetVolume volume) w = w /\
  volumes (run v (startElevenLabsConversation c env ++ [Settled]) initial)
    = [] /\
  Hook.conversationRef
    (hook (run v (startElevenLabsConversation c env ++ [Settled]) initial))
    = Some 0%nat.
Proof.
  intros Hc Hp Hok. split.
  - destruct w as [h t vs en]. simpl in Hc, Hp.
    unfold step, setVolume. simpl. rewrite Hc, Hp.
    destruct v; reflexivity.
  - pose proof (settlement_success v 0%nat env Hok) as Hs.
    unfold run, startElevenLabsConversation. simpl fold_left.
    unfold step, run_thens. simpl.
    unfold Hook.settle. simpl. rewrite Hs.
    destruct v; simpl; split; reflexivity.
Qed.

(** X26: A [setVolume] made while the session is being started is applied to
    the session, once it exists, by the typed hook, and is lost in the
    untyped hook. *)
Theorem setVolume_while_pending
    (volume : Q) (c : Hook.call) (env : Manager.creation error) :
  Manager.first_throw env = None ->
  volumes (run Hook.Typed [Start c env; SetVolume volume; Settled] initial)
    = [(0%nat, volume)] /\
  volumes (run Hook.Untyped [Start c env; SetVolume volume; Settled] initial)
    = [].
Proof.
  intros Hok.
  pose proof (fun v => settlement_success v 0%nat env Hok) as Hs.
  split; unfold run; simpl fold_left; unfold step, run_thens; simpl;
    rewrite ?Hs; reflexivity.
Qed.

(** X27: [endSession] through the hook does not cancel a start in progress: no
    conversation object gets an [endSession], and when the start
    succeeds the session is stored as active all the same; in the typed
    hook the starting call returns that session. *)
Theorem endSession_does_not_cancel_start
    (v : Hook.version) (c : Hook.call) (env : Manager.creation error) :
  Manager.first_throw env = None ->
  let w := run v [Start c env; EndSession; Settled] initial in
  ended w = [] /\
  Hook.conversationRef (hook w) = Some 0%nat /\
  (v = Hook.Typed ->
   Hook.outcome_of c (hook w) = Some (Hook.Returned 0%nat)).
Proof.
  intros Hok w. subst w.
  pose proof (settlement_success v 0%nat env Hok) as Hs.
  unfold run. simpl fold_left. unfold step, run_thens, endSession. simpl.
  unfold Hook.settle. simpl. rewrite Hs. simpl.
  unfold Hook.outcome_of. simpl. rewrite Nat.eqb_refl.
  split; [reflexivity | split; [reflexivity |]].
  intros ->. reflexivity.
Qed.

(** X28: [endSession] on an active session hands it one [endSession] call and
    forgets it at once, so the next [startSession] starts a second
    session instead of returning the first. *)
Theorem endSession_then_start_again
    (v : Hook.version) (c1 c2 : Hook.call)
    (env1 env2 : Manager.creation error) :
  Manager.first_throw env1 = None ->
  let w := run v [Start c1 env1; Settled; EndSession; Start c2 env2]
             initial in
  ended w = [0%nat] /\
  Hook.invoked (hook w) = [env1; env2] /\
  Hook.pendingConversationRef (hook w) = Some 1%nat /\
  Hook.conversationRef (hook w) = None.
Proof.
  intros Hok w. subst w.
  pose proof (settlement_success v 0%nat env1 Hok) as Hs.
  unfold run. simpl fold_left. unfold step, run_thens, endSession. simpl.
  unfold Hook.settle. simpl. rewrite Hs. simpl. repeat split.
Qed.

End HookApiFacts.

(** The component's sequence on a fresh hook. *)
Lemma setVolume_before_start_is_lost_witness :
  Hook.conversationRef (HookApi.hook (@HookApi.initial string)) = None /\
  Hook.pendingConversationRef (HookApi.hook (@HookApi.initial string))
    = None /\
  Manager.first_throw Hook.working = None /\
  HookApi.volumes
    (HookApi.run Hook.Typed
       (HookApi.startElevenLabsConversation 1%nat Hook.working
        ++ [HookApi.OfHook (Hook.Settle 0%nat)]) HookApi.initial) = [].
Proof.
  split; [reflexivity | split; [reflexivity | split; [reflexivity |]]].
  exact (proj1 (proj2
    (@setVolume_before_start_is_lost string Hook.Typed 0%Q HookApi.initial
       1%nat Hook.working eq_refl eq_refl eq_refl))).
Defined.

(** Half volume requested during the start. *)
Lemma setVolume_while_pending_witness :
  Manager.first_throw Hook.working = None /\
  HookApi.volumes
    (HookApi.run Hook.Typed
       [HookApi.OfHook (Hook.StartSession 1%nat Hook.working);
        HookApi.SetVolume (1 # 2); HookApi.OfHook (Hook.Settle 0%nat)]
       HookApi.initial) = [(0%nat, (1 # 2)%Q)].
Proof.
  split; [reflexivity |].
  exact (proj1 (@setVolume_while_pending string (1 # 2)%Q 1%nat
                  Hook.working eq_refl)).
Defined.

(** A stop requested during the start. *)
Lemma endSession_does_not_cancel_start_witness :
  Manager.first_throw Hook.working = None /\
  Hook.conversationRef
    (HookApi.hook
       (HookApi.run Hook.Typed
          [HookApi.OfHook (Hook.StartSession 1%nat Hook.working);
           HookApi.EndSession; HookApi.OfHook (Hook.Settle 0%nat)]
          HookApi.initial)) = Some 0%nat /\
  Hook.outcome_of 1%nat
    (HookApi.hook
       (HookApi.run Hook.Typed
          [HookApi.OfHook (Hook.StartSession 1%nat Hook.working);
           HookApi.EndSession; HookApi.OfHook (Hook.Settle 0%nat)]
          HookApi.initial)) = Some (Hook.Returned 0%nat).
Proof.
  split; [reflexivity |].
  destruct (@endSession_does_not_cancel_start string Hook.Typed 1%nat
              Hook.working eq_refl) as (_ & R & O).
  split; [exact R | exact (O eq_refl)].
Defined.

(** Start, stop, start again. *)
Lemma endSession_then_start_again_witness :
  Manager.first_throw Hook.working = None /\
  Hook.invoked
    (HookApi.hook
       (HookApi.run Hook.Untyped
          [HookApi.OfHook (Hook.StartSession 1%nat Hook.working);
           HookApi.OfHook (Hook.Settle 0%nat); HookApi.EndSession;
           HookApi.OfHook (Hook.StartSession 2%nat Manager.example_creation)]
          HookApi.initial))
    = [Hook.working; Manager.example_creation].
Proof.
  split; [reflexivity |].
  exact (proj1 (proj2
    (@endSession_then_start_again string Hook.Untyped 1%nat 2%nat
       Hook.working Manager.example_creation eq_refl))).
Defined.

(** ** Merging of settings *)

Section MergeFacts.

Import Merge.
Local Open Scope list_scope.

Variable value : Type.

Lemma get_set (key k : string) (v : value) (o : object value) :
  get key (set k v o) = if String.eqb k key then Some v else get key o.
Proof.
  induction o as [| [k' x] rest IH]; simpl.
  - destruct (String.eqb k key); reflexivity.
  - destruct (String.eqb_spec k' k) as [-> | Hne]; simpl.
    + destruct (String.eqb k key); reflexivity.
    + rewrite IH.
      destruct (String.eqb_spec k' key) as [-> | Hne']; [| reflexivity].
      destruct (String.eqb_spec k key) as [-> | _];
        [contradiction | reflexivity].
Qed.

Lemma get_absent (key : string) (o : object value) :
  ~ In key (map fst o) -> get key o = None.
Proof.
  induction o as [| [k x] rest IH]; intros H; [reflexivity |].
  simpl in *. destruct (String.eqb_spec k key) as [-> | Hne].
  - exfalso. apply H. left. reflexivity.
  - apply IH. intros Hin. apply H. right. exact Hin.
Qed.

(** [Object.assign] gives the source's value where the source has the key
    and keeps the target's otherwise. *)
Lemma get_assign (key : string) (target source : object value) :
  proper source ->
  get key (assign target source) =
    match get key source with
    | Some v => Some v
    | None => get key target
    end.
Proof.
  unfold assign, proper. revert target.
  induction source as [| [k x] rest IH]; intros target Hp; [reflexivity |].
  simpl in Hp. inversion Hp as [| ? ? Hnotin Hrest]; subst.
  simpl fold_left. rewrite IH by exact Hrest.
  simpl get. destruct (String.eqb_spec k key) as [-> | Hne].
  - rewrite (get_absent key rest Hnotin). rewrite get_set.
    rewrite String.eqb_refl. reflexivity.
  - rewrite get_set.
    destruct (String.eqb_spec k key) as [E | _]; [contradiction |].
    reflexivity.
Qed.

Lemma get_fold_assign (key : string) (objects : list (object value))
    (start : object value) :
  Forall (@proper value) objects ->
  get key (fold_left (@assign value) objects start) =
    fold_left (fun found o => match get key o with
                              | Some v => Some v
                              | None => found
                              end) objects (get key start).
Proof.
  intros H. revert start.
  induction H as [| o rest Ho _ IH]; intros start; [reflexivity |].
  simpl. rewrite IH, get_assign by exact Ho. reflexivity.
Qed.

Lemma last_defined_default (key : string) (objects : list (object value))
    (start : option value) :
  fold_left (fun found o => match get key o with
                            | Some v => Some v
                            | None => found
                            end) objects start =
    match last_defined key objects with
    | Some v => Some v
    | None => start
    end.
Proof.
  unfold last_defined. revert start.
  induction objects as [| o rest IH]; intros start; [reflexivity |].
  simpl. rewrite IH, (IH (match get key o with
                          | Some v => Some v
                          | None => None
                          end)).
  destruct (fold_left _ rest None); [reflexivity |].
  destruct (get key o); reflexivity.
Qed.

(** X29: In the merged settings every key has the value of the last object
    that defines it: a handler given in a later object replaces an
    earlier one, and the defaults fill in only what no later object
    provides.  This holds for [mergeObjects] and for [mergeConfigs] over
    its built-in defaults. *)
Theorem merge_last_wins (key : string) (DEFAULT_HANDLERS : object value)
    (objects : list (object value)) :
  Forall (@proper value) objects -> proper DEFAULT_HANDLERS ->
  get key (mergeObjects objects) = last_defined key objects /\
  get key (mergeConfigs DEFAULT_HANDLERS objects) =
    match last_defined key objects with
    | Some v => Some v
    | None => get key DEFAULT_HANDLERS
    end.
Proof.
  intros Hobjs Hdef. split.
  - unfold mergeObjects. rewrite get_fold_assign by exact Hobjs.
    reflexivity.
  - unfold mergeConfigs. simpl fold_left.
    rewrite get_fold_assign by exact Hobjs.
    rewrite get_assign by exact Hdef. simpl get.
    rewrite last_defined_default.
    destruct (get key DEFAULT_HANDLERS); reflexivity.
Qed.

End MergeFacts.

(** Defaults for two handlers, a first config replacing one, a second
    config replacing it again. *)
Lemma merge_last_wins_witness :
  Forall (@Merge.proper nat)
    [[("onError"%string, 1%nat)]; [("onError"%string, 2%nat)]] /\
  Merge.proper [("onError"%string, 0%nat); ("onDebug"%string, 0%nat)] /\
  Merge.get "onError"
    (Merge.mergeConfigs
       [("onError"%string, 0%nat); ("onDebug"%string, 0%nat)]
       [[("onError"%string, 1%nat)]; [("onError"%string, 2%nat)]])
    = Some 2%nat.
Proof.
  assert (H1 : Forall (@Merge.proper nat)
    [[("onError"%string, 1%nat)]; [("onError"%string, 2%nat)]]).
  { repeat constructor; simpl; tauto. }
  assert (H2 : Merge.proper
    [("onError"%string, 0%nat); ("onDebug"%string, 0%nat)]).
  { repeat constructor; simpl; intuition discriminate. }
  split; [exact H1 | split; [exact H2 |]].
  rewrite (proj2 (@merge_last_wins nat "onError"%string _ _ H1 H2)).
  reflexivity.
Defined.

(** ** Server action *)

Section ActionFacts.

Import Actions.
Local Open Scope string_scope.
Local Open Scope list_scope.

Variable ELEVENLABS_API_KEY : option string.
Variable fetch : request -> Manager.result thrown response.
Variable null_field_message : string.
Variable headers_set : string -> Manager.result thrown string.

Local Abbreviation getSignedUrl :=
  (getElevenLabsSignedUrl ELEVENLABS_API_KEY fetch null_field_message
     headers_set).

(** X30: [getElevenLabsSignedUrl] turns every failure into an error reply and
    asks the service at most once.  Without an API key (unset or empty)
    it makes no request at all, and neither does it when the platform
    refuses the key as a header value: the reply is then the error the
    platform threw.  A response that is not ok gives the error naming its
    status; and it replies with a signed URL exactly when a key is
    configured, the platform took it as a header value, the one request
    got an ok response, and that response's JSON was not [null]. *)
Theorem signed_url_only_from_an_ok_response
    (agentId : string) (signed_url : option string) :
  (configured_key ELEVENLABS_API_KEY = None ->
   getSignedUrl agentId
     = ([], Error "ElevenLabs API key is not configured")) /\
  (forall key t,
     configured_key ELEVENLABS_API_KEY = Some key ->
     headers_set key = Manager.Throw t ->
     getSignedUrl agentId = ([], on_catch t)) /\
  (forall key header response,
     configured_key ELEVENLABS_API_KEY = Some key ->
     headers_set key = Manager.Ok header ->
     fetch (signed_url_request header agentId) = Manager.Ok response ->
     ok response = false ->
     getSignedUrl agentId
       = ([signed_url_request header agentId],
          Error ("ElevenLabs API error: "
                 ++ number_to_string (status response)))) /\
  (snd (getSignedUrl agentId) = SignedUrl signed_url <->
   exists key header response,
     configured_key ELEVENLABS_API_KEY = Some key /\
     headers_set key = Manager.Ok header /\
     fetch (signed_url_request header agentId) = Manager.Ok response /\
     ok response = true /\
     json response = Manager.Ok (Value signed_url)) /\
  (List.length (fst (getSignedUrl agentId)) <= 1)%nat.
Proof.
  unfold getElevenLabsSignedUrl.
  split; [| split; [| split; [| split]]].
  - intros H. rewrite H. reflexivity.
  - intros key t Hk Hh. rewrite Hk, Hh. reflexivity.
  - intros key header response Hk Hh Hf Hok. rewrite Hk, Hh.
    cbv zeta. rewrite Hf, Hok. reflexivity.
  - destruct (configured_key ELEVENLABS_API_KEY) as [key |]; cbn [snd].
    + destruct (headers_set key) as [header | t] eqn:Hh; cbn [snd].
      * split.
        -- intros H. exists key, header.
           destruct (fetch (signed_url_request header agentId))
             as [response | t]; [| discriminate H].
           exists response.
           destruct (ok response); [| discriminate H]. simpl in H.
           destruct (json response) as [[| u] | t]; try discriminate H.
           injection H as ->. repeat split; first [exact Hh | reflexivity].
        -- intros (key' & header' & response & Hk & Hh' & Hf & Hok & Hj).
           injection Hk as <-. rewrite Hh in Hh'. injection Hh' as <-.
           rewrite Hf, Hok, Hj. reflexivity.
      * split; [intros H; discriminate H |].
        intros (key' & header' & response & Hk & Hh' & _).
        injection Hk as <-. rewrite Hh in Hh'. discriminate Hh'.
    + split; [intros H; discriminate H |].
      intros (key' & header' & response & Hk & _). discriminate Hk.
  - destruct (configured_key ELEVENLABS_API_KEY) as [key |];
      [destruct (headers_set key) |]; simpl; lia.
Qed.

End ActionFacts.

(** No key in the environment; and a key the service rejects. *)
Lemma signed_url_only_from_an_ok_response_witness :
  Actions.configured_key None = None /\
  Actions.configured_key (Some "k"%string) = Some "k"%string /\
  Actions.getElevenLabsSignedUrl None Actions.unauthorized
    EmptyString Actions.any_header "agent"%string
    = ([], Actions.Error "ElevenLabs API key is not configured"%string) /\
  snd (Actions.getElevenLabsSignedUrl (Some "k"%string) Actions.unauthorized
         EmptyString Actions.any_header "agent"%string)
    = Actions.Error "ElevenLabs API error: 401"%string.
Proof.
  split; [reflexivity | split; [reflexivity | split]].
  - exact (proj1 (@signed_url_only_from_an_ok_response None
                    Actions.unauthorized EmptyString Actions.any_header
                    "agent"%string None)
             eq_refl).
  - rewrite (proj1 (proj2 (proj2 (@signed_url_only_from_an_ok_response
                    (Some "k"%string) Actions.unauthorized EmptyString
                    Actions.any_header "agent"%string None)))
               "k"%string "k"%string _ eq_refl eq_refl eq_refl eq_refl).
    reflexivity.
Defined.
